(** * poetry: the console application shell and the Poetry context object

    A shallow embedding of [src/poetry/console/application.py] and
    [src/poetry/poetry.py].  Python objects that are mutated in place are
    modelled by explicit state passing; exceptions by an outcome type;
    calls into collaborators that live outside these two files (the cleo
    input library, the environment manager, the plugin manager, the
    factory) are section variables, and every call to one of them that
    has an effect on the outside world is recorded in a trace. *)

From Stdlib Require Import String Ascii List ZArith Bool Lia.
From stdpp Require Import base option list gmap strings.
Import ListNotations.

Local Open Scope string_scope.
Local Open Scope list_scope.

(** ** Python values, exceptions and outcomes *)

(** The values an input option can be bound to. *)
Inductive PyVal : Type :=
| PyNone
| PyBool (b : bool)
| PyInt (n : Z)
| PyStr (s : string)
| PyList (l : list string).

(** Python truthiness, as tested by [if value:]. *)
Definition truthy (v : PyVal) : bool :=
  match v with
  | PyNone => false
  | PyBool b => b
  | PyInt n => negb (Z.eqb n 0)
  | PyStr s => negb (String.eqb s "")
  | PyList l => match l with [] => false | _ :: _ => true end
  end.

(** Exceptions: [CleoException] (and its subclasses) against everything
    else, the latter tagged with its class name. *)
Inductive exn : Type :=
| CleoException (msg : string)
| PyError (cls : string) (msg : string).

Definition is_CleoException (e : exn) : bool :=
  match e with CleoException _ => true | PyError _ _ => false end.

Inductive outcome (A : Type) : Type :=
| Ok (a : A)
| Raise (e : exn).
Arguments Ok {A} a.
Arguments Raise {A} e.

(** [with suppress(CleoException): body] *)
Definition suppress_CleoException (r : outcome unit) : outcome unit :=
  match r with
  | Ok tt => Ok tt
  | Raise e => if is_CleoException e then Ok tt else Raise e
  end.

(** A computation over a mutable state [S] that returns a value or raises;
    the state reached when the exception is raised is kept. *)
Definition M (S A : Type) : Type := S -> S * outcome A.

Definition ret {S A} (a : A) : M S A := fun s => (s, Ok a).
Definition raise {S A} (e : exn) : M S A := fun s => (s, Raise e).
Definition bind {S A B} (m : M S A) (k : A -> M S B) : M S B :=
  fun s => match m s with
           | (s', Ok a) => k a s'
           | (s', Raise e) => (s', Raise e)
           end.
Definition get {S} : M S S := fun s => (s, Ok s).
Definition modify {S} (f : S -> S) : M S unit := fun s => (f s, Ok tt).
Definition lift_outcome {S A} (r : outcome A) : M S A := fun s => (s, r).

Declare Scope monad_scope.
Delimit Scope monad_scope with monad.
Notation "'let!' x ':=' c1 'in' c2" := (bind c1 (fun x => c2))
  (at level 10, x name, c1 at level 100, c2 at level 200,
   only parsing) : monad_scope.

(** [for x in xs: body(x)] *)
Fixpoint for_each {S A} (xs : list A) (body : A -> M S unit) : M S unit :=
  match xs with
  | [] => ret tt
  | x :: xs' => bind (body x) (fun _ => for_each xs' body)
  end.

(** ** Strings *)

(** [s.lstrip("-")] *)
Fixpoint lstrip_dash (s : string) : string :=
  match s with
  | String c r => if Ascii.eqb c "-" then lstrip_dash r else s
  | EmptyString => s
  end.

(** [re.split(r"\|-?", s)]: the string is cut at every ['|']; a ['-'] that
    directly follows the bar belongs to the delimiter.  The pattern never
    matches the empty string, so the pieces are those between consecutive
    matches, the first and the last included. *)
Fixpoint re_split_bar_dash (s : string) : list string :=
  match s with
  | EmptyString => [""]
  | String c r =>
      if Ascii.eqb c "|" then
        match r with
        | String d r' =>
            if Ascii.eqb d "-" then "" :: re_split_bar_dash r'
            else "" :: re_split_bar_dash r
        | EmptyString => "" :: re_split_bar_dash r
        end
      else
        match re_split_bar_dash r with
        | f :: fs => String c f :: fs
        | [] => [String c ""]
        end
  end.

Definition nonempty (s : string) : bool := negb (String.eqb s "").

Definition starts_with_dash (t : string) : bool :=
  match t with
  | String c _ => Ascii.eqb c "-"
  | EmptyString => false
  end.

(** Whether the delimiter character occurs in a string. *)
Fixpoint has_bar (s : string) : bool :=
  match s with
  | EmptyString => false
  | String c r => Ascii.eqb c "|" || has_bar r
  end.

(** The string without the dash that directly follows a bar: what is left
    of a shortcut specification once every delimiter is reduced to its
    bar. *)
Fixpoint drop_dash_after_bar (s : string) : string :=
  match s with
  | EmptyString => EmptyString
  | String c r =>
      if Ascii.eqb c "|" then
        String c match r with
                 | String d r' =>
                     if Ascii.eqb d "-" then drop_dash_after_bar r'
                     else drop_dash_after_bar r
                 | EmptyString => EmptyString
                 end
      else String c (drop_dash_after_bar r)
  end.

(** Lines 211-212: the aliases packed in a shortcut string. *)
Definition shortcut_aliases (shortcut : string) : list string :=
  filter (fun s => nonempty s = true) (re_split_bar_dash (lstrip_dash shortcut)).

(** Line 214: the parameter option declared for one alias. *)
Definition alias_parameter_option (alias : string) : string :=
  "-" ++ lstrip_dash alias.

(** ** Insertion-ordered dictionaries

    A Python [dict] iterated in insertion order: an association list
    whose keys are kept distinct by [dict_set]. *)
Definition dict (V : Type) : Type := list (string * V).

Fixpoint dict_get {V} (k : string) (d : dict V) : option V :=
  match d with
  | [] => None
  | (k', v) :: d' => if String.eqb k k' then Some v else dict_get k d'
  end.

(** [d[k] = v] *)
Fixpoint dict_set {V} (k : string) (v : V) (d : dict V) : dict V :=
  match d with
  | [] => [(k, v)]
  | (k', v') :: d' =>
      if String.eqb k k' then (k', v) :: d' else (k', v') :: dict_set k v d'
  end.

(** [d.update(d2)] *)
Definition dict_update {V} (d d2 : dict V) : dict V :=
  fold_left (fun acc kv => dict_set (fst kv) (snd kv) acc) d2 d.

Definition dict_keys {V} (d : dict V) : list string := map fst d.

(** ** The input library

    The classes of cleo that the application code touches, reduced to the
    attributes it reads and writes.  Parsing itself belongs to the
    library and stays abstract (see the section variables below). *)

(** [cleo.io.inputs.option.Option]: the name is stored without its
    leading dashes. *)
Record CleoOption : Type := {
  opt_name : string;
  opt_shortcut : option string;
  opt_default : PyVal
}.

(** [cleo.io.inputs.definition.Definition], its options in declaration
    order. *)
Definition InputDefinition : Type := list CleoOption.

Definition has_option (d : InputDefinition) (name : string) : bool :=
  existsb (fun o => String.eqb name (opt_name o)) d.

(** [definition.option(name)] *)
Definition definition_option (d : InputDefinition) (name : string)
  : outcome CleoOption :=
  match find (fun o => String.eqb name (opt_name o)) d with
  | Some o => Ok o
  | None => Raise (PyError "ValueError" name)
  end.

(** [definition.option_defaults] *)
Definition option_defaults (d : InputDefinition) : dict PyVal :=
  fold_left (fun acc o => dict_set (opt_name o) (opt_default o) acc) d [].

(** [definition.add_option(option)] *)
Definition add_option (d : InputDefinition) (o : CleoOption) : InputDefinition :=
  d ++ [o].

(** [ArgvInput]: the tokens after the program name, and what the last
    [bind] left behind. *)
Record ArgvInput : Type := {
  _tokens : list string;
  _definition : InputDefinition;
  _options : dict PyVal;
  _arguments : dict PyVal
}.

(** Modelled from the spec: [RunArgvInput], whose module is not among the
    source files, is an [ArgvInput] onto which options can be declared
    as parameter options. *)
Record RunArgvInput : Type := {
  run_base : ArgvInput;
  _parameter_options : list string
}.

Inductive Input : Type :=
| Argv (a : ArgvInput)
| RunArgv (r : RunArgvInput).

(** [cast(ArgvInput, io.input)]: the same object seen at its base class. *)
Definition as_ArgvInput (i : Input) : ArgvInput :=
  match i with
  | Argv a => a
  | RunArgv r => run_base r
  end.

(** [ArgvInput(argv)] strips the program name and starts unbound. *)
Definition ArgvInput_new (argv : list string) : ArgvInput :=
  {| _tokens := tl argv; _definition := []; _options := []; _arguments := [] |}.

(** Modelled from the spec: [RunArgvInput(argv)] is seeded with the token
    stream and has no parameter option declared. *)
Definition RunArgvInput_new (argv : list string) : RunArgvInput :=
  {| run_base := ArgvInput_new argv; _parameter_options := [] |}.

(** Modelled from the spec: [run_input.add_parameter_option(name)]
    declares one more parameter option. *)
Definition add_parameter_option (name : string) : M RunArgvInput unit :=
  modify (fun r => {| run_base := run_base r;
                      _parameter_options := _parameter_options r ++ [name] |}).

(** [input.options]: the definition's defaults overridden by what was
    parsed. *)
Definition input_options (a : ArgvInput) : dict PyVal :=
  dict_update (option_defaults (_definition a)) (_options a).

(** [input.set_option(name, value)] *)
Definition set_option (name : string) (value : PyVal) : M RunArgvInput unit :=
  fun r =>
    let a := run_base r in
    if has_option (_definition a) name then
      ({| run_base := {| _tokens := _tokens a;
                         _definition := _definition a;
                         _options := dict_set name value (_options a);
                         _arguments := _arguments a |};
          _parameter_options := _parameter_options r |}, Ok tt)
    else (r, Raise (PyError "ValueError" name)).

(** What a run of the library's [_parse] leaves in the input, and the
    exception it ended with, if any. *)
Record ParseResult : Type := {
  parsed_options : dict PyVal;
  parsed_arguments : dict PyVal;
  parse_error : option exn
}.

Definition raised (e : option exn) : outcome unit :=
  match e with
  | None => Ok tt
  | Some e => Raise e
  end.

(** [cleo.io.io.IO]: the active input and the verbosity of the output. *)
Record IO : Type := {
  input : Input;
  is_debug : bool;
  is_very_verbose : bool;
  is_verbose : bool
}.

(** [io.set_input(input)] *)
Definition set_input (i : Input) : M IO unit :=
  modify (fun io => {| input := i; is_debug := is_debug io;
                       is_very_verbose := is_very_verbose io;
                       is_verbose := is_verbose io |}).

(** The attributes of the application object that the input rebinder
    reads. *)
Record AppInfo : Type := {
  _name : option string;
  definition : InputDefinition
}.

(** [self._name or ""] *)
Definition name_or_empty (self : AppInfo) : string :=
  match _name self with
  | Some n => if nonempty n then n else ""
  | None => ""
  end.

(** [_default_definition]: the base definition plus the [--no-plugins]
    flag. *)
Definition _default_definition (base : InputDefinition) : InputDefinition :=
  add_option base
    {| opt_name := "no-plugins"; opt_shortcut := None; opt_default := PyBool false |}.

(** ** The input rebinder ([_configure_io]) *)

Section Rebinder.

(** [ArgvInput._parse] against a definition. *)
Variable argv_parse : InputDefinition -> list string -> ParseResult.
(** [RunArgvInput._parse]: also reads the declared parameter options. *)
Variable run_argv_parse :
  InputDefinition -> list string -> list string -> ParseResult.
(** [input.first_argument] *)
Variable first_argument : Input -> option string.
(** [BaseApplication._configure_io] *)
Variable base_configure_io : M IO unit.

Definition bound (a : ArgvInput) (d : InputDefinition) (p : ParseResult)
  : ArgvInput :=
  {| _tokens := _tokens a; _definition := d;
     _options := parsed_options p; _arguments := parsed_arguments p |}.

(** [input.bind(definition)]: the definition is installed, the previous
    binding is dropped, and the tokens are parsed; the object keeps
    whatever the parse stored before it raised. *)
Definition Input_bind (d : InputDefinition) : M Input unit :=
  fun i =>
    match i with
    | Argv a =>
        let p := argv_parse d (_tokens a) in
        (Argv (bound a d p), raised (parse_error p))
    | RunArgv r =>
        let p := run_argv_parse d (_tokens (run_base r)) (_parameter_options r) in
        (RunArgv {| run_base := bound (run_base r) d p;
                    _parameter_options := _parameter_options r |},
         raised (parse_error p))
    end.

Definition suppressing {S} (m : M S unit) : M S unit :=
  fun s => let (s', r) := m s in (s', suppress_CleoException r).

(** [io.input.bind(definition)] on the input held by [io]. *)
Definition io_input_bind (d : InputDefinition) : M IO unit :=
  fun io =>
    let (i, r) := Input_bind d (input io) in
    (fst (set_input i io), r).

(** Lines 208-214, the body of the first loop for a truthy value. *)
Definition declare_option (d : InputDefinition) (option_name : string)
  : M RunArgvInput unit :=
  (let! option := lift_outcome (definition_option d option_name) in
   let! _ := add_parameter_option ("--" ++ opt_name option) in
   match opt_shortcut option with
   | Some shortcut =>
       if nonempty shortcut then
         for_each (shortcut_aliases shortcut)
           (fun alias => add_parameter_option (alias_parameter_option alias))
       else ret tt
   | None => ret tt
   end)%monad.

(** Lines 206-214. *)
Definition declare_options (d : InputDefinition) (options : dict PyVal)
  : M RunArgvInput unit :=
  for_each options
    (fun item => if truthy (snd item) then declare_option d (fst item)
                 else ret tt).

(** Lines 219-221. *)
Definition reapply_options (options : dict PyVal) : M RunArgvInput unit :=
  for_each options
    (fun item => if truthy (snd item) then set_option (fst item) (snd item)
                 else ret tt).

(** [run_input.bind(definition)] *)
Definition RunArgvInput_bind (d : InputDefinition) : M RunArgvInput unit :=
  fun r =>
    match Input_bind d (RunArgv r) with
    | (RunArgv r', o) => (r', o)
    | (Argv _, o) => (r, o)
    end.

(** Lines 202-221: the rebuilt input. *)
Definition build_run_input (self : AppInfo) (input_ : ArgvInput)
  : M RunArgvInput unit :=
  (let! _ := declare_options (definition self) (input_options input_) in
   let! _ := suppressing (RunArgvInput_bind (definition self)) in
   reapply_options (input_options input_))%monad.

(** Lines 194-223: [_configure_io] up to the call of the base class. *)
Definition rebind (self : AppInfo) : M IO unit :=
  (let! _ := suppressing (io_input_bind (definition self)) in
   let! io := get in
   match first_argument (input io) with
   | Some name =>
       if String.eqb name "run" then
         let input_ := as_ArgvInput (input io) in
         let run_input :=
           RunArgvInput_new ([name_or_empty self] ++ _tokens input_) in
         let! run_input :=
           lift_outcome
             (match build_run_input self input_ run_input with
              | (r, Ok _) => Ok r
              | (_, Raise e) => Raise e
              end) in
         set_input (RunArgv run_input)
       else ret tt
   | None => ret tt
   end)%monad.

(** [_configure_io]: the rewrite, then line 225, the base class. *)
Definition _configure_io (self : AppInfo) : M IO unit :=
  (let! _ := rebind self in base_configure_io)%monad.

(** *** What the rewrite is expected to produce

    The functions below are not part of the program; they describe the
    rebuilt input in closed form and are what the theorems compare
    [rebind] with. *)

(** An outcome that a [suppress(CleoException)] block lets through. *)
Definition tolerated (r : outcome unit) : bool :=
  match r with
  | Ok _ => true
  | Raise e => is_CleoException e
  end.

(** The names of the options bound to a truthy value, in order. *)
Definition supplied (options : dict PyVal) : list string :=
  map fst (List.filter (fun item => truthy (snd item)) options).

(** The parameter options that stand for one option of the definition:
    its long form, then one short form per alias. *)
Definition declared_for (o : CleoOption) : list string :=
  ("--" ++ opt_name o)%string ::
  match opt_shortcut o with
  | Some shortcut =>
      if nonempty shortcut then
        map alias_parameter_option (shortcut_aliases shortcut)
      else []
  | None => []
  end.

Definition declared_names (d : InputDefinition) (name : string) : list string :=
  match definition_option d name with
  | Ok o => declared_for o
  | Raise _ => []
  end.

Definition declared (d : InputDefinition) (options : dict PyVal) : list string :=
  concat (map (declared_names d) (supplied options)).

(** The input with further parameter options appended. *)
Definition add_params (names : list string) (r : RunArgvInput) : RunArgvInput :=
  {| run_base := run_base r;
     _parameter_options := _parameter_options r ++ names |}.

(** The input with its bound option values replaced. *)
Definition with_options (opts : dict PyVal) (r : RunArgvInput) : RunArgvInput :=
  {| run_base := {| _tokens := _tokens (run_base r);
                    _definition := _definition (run_base r);
                    _options := opts;
                    _arguments := _arguments (run_base r) |};
     _parameter_options := _parameter_options r |}.

(** The option values after the truthy ones have been set again. *)
Definition reapplied (options : dict PyVal) (start : dict PyVal) : dict PyVal :=
  fold_left (fun acc item => if truthy (snd item)
                             then dict_set (fst item) (snd item) acc else acc)
    options start.

(** The original input after the first bind, and the input that is
    expected to replace it. *)
Definition first_bound (self : AppInfo) (io : IO) : Input :=
  fst (Input_bind (definition self) (input io)).

Definition second_parse (self : AppInfo) (io : IO) : ParseResult :=
  let a := as_ArgvInput (first_bound self io) in
  run_argv_parse (definition self) (_tokens a)
    (declared (definition self) (input_options a)).

Definition rebuilt_input (self : AppInfo) (io : IO) : RunArgvInput :=
  let a := as_ArgvInput (first_bound self io) in
  let p := second_parse self io in
  {| run_base :=
       {| _tokens := _tokens a;
          _definition := definition self;
          _options := reapplied (input_options a) (parsed_options p);
          _arguments := parsed_arguments p |};
     _parameter_options := declared (definition self) (input_options a) |}.

(** Both binds end normally or with a [CleoException], and the first
    parse has stored values only for options of the definition. *)
Definition binds_tolerated (self : AppInfo) (io : IO) : bool :=
  tolerated (snd (Input_bind (definition self) (input io)))
  && forallb (has_option (definition self))
       (dict_keys (_options (as_ArgvInput (first_bound self io))))
  && tolerated (raised (parse_error (second_parse self io))).

(** The reading of "the original trailing tokens" as everything from the
    pass-through command name on. *)
Fixpoint trailing_tokens (name : string) (tokens : list string) : list string :=
  match tokens with
  | [] => []
  | t :: rest => if String.eqb t name then tokens else trailing_tokens name rest
  end.

End Rebinder.

(** ** A small concrete input library

    The theorems below hold for every parser.  To run the rebinder on
    concrete command lines this module supplies one: long flags and
    packed shortcuts of the definition are recognised, one positional
    argument (the command name) is accepted, and anything else ends the
    parse with a [CleoException]. *)
Module ToyCleo.

Definition long_name (t : string) : option string :=
  match t with
  | String a (String b r) =>
      if Ascii.eqb a "-" && Ascii.eqb b "-" then Some r else None
  | _ => None
  end.

Definition has_alias (alias : string) (o : CleoOption) : bool :=
  match opt_shortcut o with
  | Some sc => existsb (String.eqb alias) (shortcut_aliases sc)
  | None => false
  end.

(** The option a token stands for, if it is one of the definition. *)
Definition token_option (d : InputDefinition) (t : string) : option CleoOption :=
  match long_name t with
  | Some n => find (fun o => String.eqb n (opt_name o)) d
  | None =>
      match t with
      | String _ alias => find (has_alias alias) d
      | EmptyString => None
      end
  end.

Fixpoint parse_loop (d : InputDefinition) (recognised : string -> bool)
    (tokens : list string) (opts args : dict PyVal) : ParseResult :=
  match tokens with
  | [] => {| parsed_options := opts; parsed_arguments := args;
             parse_error := None |}
  | t :: rest =>
      if starts_with_dash t && recognised t then
        match token_option d t with
        | Some o =>
            parse_loop d recognised rest
              (dict_set (opt_name o) (PyBool true) opts) args
        | None =>
            {| parsed_options := opts; parsed_arguments := args;
               parse_error := Some (CleoException "The option does not exist") |}
        end
      else
        match args with
        | [] => parse_loop d recognised rest opts [("command", PyStr t)]
        | _ :: _ =>
            {| parsed_options := opts; parsed_arguments := args;
               parse_error := Some (CleoException "Too many arguments") |}
        end
  end.

Definition argv_parse (d : InputDefinition) (tokens : list string) : ParseResult :=
  parse_loop d (fun _ => true) tokens [] [].

(** Only declared parameter options are read as options; every other
    token is positional. *)
Definition run_argv_parse (d : InputDefinition) (tokens params : list string)
  : ParseResult :=
  parse_loop d (fun t => existsb (String.eqb t) params) tokens [] [].

Definition first_argument (i : Input) : option string :=
  find (fun t => negb (starts_with_dash t)) (_tokens (as_ArgvInput i)).

Definition base_configure_io : M IO unit := ret tt.

(** The global options of the shell that the examples use. *)
Definition global_definition : InputDefinition :=
  _default_definition
    [ {| opt_name := "help"; opt_shortcut := Some "-h"; opt_default := PyBool false |};
      {| opt_name := "quiet"; opt_shortcut := Some "-q"; opt_default := PyBool false |};
      {| opt_name := "verbose"; opt_shortcut := Some "-v|-vv|-vvv";
         opt_default := PyBool false |};
      {| opt_name := "ansi"; opt_shortcut := None; opt_default := PyBool false |} ].

Definition app : AppInfo :=
  {| _name := Some "poetry"; definition := global_definition |}.

Definition io_of (argv : list string) : IO :=
  {| input := Argv (ArgvInput_new argv);
     is_debug := false; is_very_verbose := false; is_verbose := false |}.

Definition rebind := rebind argv_parse run_argv_parse first_argument.

End ToyCleo.


(** ** The Poetry context object ([poetry.py])

    Collaborator objects (package, locker, pool, configuration, plugin
    manager) are opaque handles.  Poetry objects live in a heap and are
    passed around by reference, so that "the same instance" means the
    same reference. *)

Definition Path : Type := string.
Definition ProjectPackage : Type := nat.
Definition BaseLocker : Type := nat.
Definition Config : Type := nat.
Definition Pool : Type := nat.
Definition PluginManager : Type := string.

Record Poetry : Type := {
  _file : Path;
  _local_config : dict PyVal;
  _package : ProjectPackage;
  _locker : BaseLocker;
  _config : Config;
  _pool : Pool;
  _plugin_manager : option PluginManager
}.

(** [__init__]: the pool is a new, empty one; no plugin manager yet. *)
Definition Poetry_init (file : Path) (local_config : dict PyVal)
    (package : ProjectPackage) (locker : BaseLocker) (config : Config)
    (new_pool : Pool) : Poetry :=
  {| _file := file; _local_config := local_config; _package := package;
     _locker := locker; _config := config; _pool := new_pool;
     _plugin_manager := None |}.

Definition ref : Type := nat.

Definition with_locker (locker : BaseLocker) (p : Poetry) : Poetry :=
  {| _file := _file p; _local_config := _local_config p; _package := _package p;
     _locker := locker; _config := _config p; _pool := _pool p;
     _plugin_manager := _plugin_manager p |}.

Definition with_pool (pool : Pool) (p : Poetry) : Poetry :=
  {| _file := _file p; _local_config := _local_config p; _package := _package p;
     _locker := _locker p; _config := _config p; _pool := pool;
     _plugin_manager := _plugin_manager p |}.

Definition with_config (config : Config) (p : Poetry) : Poetry :=
  {| _file := _file p; _local_config := _local_config p; _package := _package p;
     _locker := _locker p; _config := config; _pool := _pool p;
     _plugin_manager := _plugin_manager p |}.

Definition with_plugin_manager (pm : option PluginManager) (p : Poetry) : Poetry :=
  {| _file := _file p; _local_config := _local_config p; _package := _package p;
     _locker := _locker p; _config := _config p; _pool := _pool p;
     _plugin_manager := pm |}.

(** A method that assigns to one attribute of [self] and returns [self]. *)
Definition assigning (f : Poetry -> Poetry) (self : ref)
  : gmap ref Poetry -> gmap ref Poetry * ref :=
  fun h => (alter f self h, self).

Definition set_locker (self : ref) (locker : BaseLocker) :=
  assigning (with_locker locker) self.

Definition set_pool (self : ref) (pool : Pool) :=
  assigning (with_pool pool) self.

Definition set_config (self : ref) (config : Config) :=
  assigning (with_config config) self.

Definition set_plugin_manager (self : ref) (plugin_manager : PluginManager) :=
  assigning (with_plugin_manager (Some plugin_manager)) self.

(** ** Commands, loggers and the state of the process *)

(** [poetry.utils.env.Env], the two attributes the listener reads. *)
Record Env : Type := {
  env_path : string;
  env_is_venv : bool
}.

(** [Installer(io, env, package, locker, pool, config)] and the flag given
    to [use_executor]. *)
Record Installer : Type := {
  installer_io : IO;
  installer_env : option Env;
  installer_package : ProjectPackage;
  installer_locker : BaseLocker;
  installer_pool : Pool;
  installer_config : Config;
  installer_use_executor : PyVal
}.

(** Modelled from the spec: a command object, whose classes are not among
    the source files, declares logger names and holds an optional
    environment and an optional installer.  The three booleans are the
    results of [isinstance(command, Command)],
    [isinstance(command, EnvCommand)] and
    [isinstance(command, InstallerCommand)]. *)
Record Command : Type := {
  command_name : string;
  is_Command : bool;
  is_EnvCommand : bool;
  is_InstallerCommand : bool;
  loggers : list string;
  env : option Env;
  installer : option Installer
}.

(** [command.set_env(env)] *)
Definition set_env (e : Env) (c : Command) : Command :=
  {| command_name := command_name c; is_Command := is_Command c;
     is_EnvCommand := is_EnvCommand c; is_InstallerCommand := is_InstallerCommand c;
     loggers := loggers c; env := Some e; installer := installer c |}.

(** [command.set_installer(installer)] *)
Definition set_installer (i : Installer) (c : Command) : Command :=
  {| command_name := command_name c; is_Command := is_Command c;
     is_EnvCommand := is_EnvCommand c; is_InstallerCommand := is_InstallerCommand c;
     loggers := loggers c; env := env c; installer := Some i |}.

(** [logging] levels. *)
Definition NOTSET : Z := 0.
Definition DEBUG : Z := 10.
Definition INFO : Z := 20.
Definition WARNING : Z := 30.

Inductive Formatter : Type := IOFormatter.

(** [IOHandler(io)] with its formatter. *)
Record Handler : Type := {
  handler_io : IO;
  handler_formatter : option Formatter
}.

Definition setFormatter (f : Formatter) (h : Handler) : Handler :=
  {| handler_io := handler_io h; handler_formatter := Some f |}.

Record Logger : Type := {
  handlers : list Handler;
  level : Z
}.

(** [logging.getLogger(name)]: the logger registered under the name, a
    new one without handler and level when there is none yet.  (The
    logger's [name] attribute is the key.) *)
Definition getLogger (name : string) (registry : gmap string Logger) : Logger :=
  default {| handlers := []; level := NOTSET |} (registry !! name).

(** [s.startswith(prefix)] *)
Definition startswith (prefix s : string) : bool := String.prefix prefix s.

Record SolutionProviderRepository : Type := {
  solution_providers : list string
}.

(** Calls that leave the process, in the order they were made. *)
Inductive Event : Type :=
| CreatePoetry (io : option IO) (disable_plugins : PyVal)
| CreateVenv (poetry : ref)
| WriteLine (line : string)
| LoadPlugins (group : string)
| Activate (group : string)
| Execute (name : string)
| RenderError (error : exn).

(** The application object ([self]). *)
Record Application : Type := {
  info : AppInfo;
  _poetry : option ref;
  _io : option IO;
  _disable_plugins : PyVal;
  _plugins_loaded : bool;
  _solution_provider_repository : option SolutionProviderRepository;
  _command_loader : dict (unit -> outcome Command)
}.

(** Everything a run can change. *)
Record World : Type := {
  self : Application;
  heap : gmap ref Poetry;
  logging : gmap string Logger;
  trace : list Event
}.

Definition with_self (f : Application -> Application) (w : World) : World :=
  {| self := f (self w); heap := heap w; logging := logging w; trace := trace w |}.

Definition with_heap (f : gmap ref Poetry -> gmap ref Poetry) (w : World) : World :=
  {| self := self w; heap := f (heap w); logging := logging w; trace := trace w |}.

Definition with_logging (f : gmap string Logger -> gmap string Logger) (w : World)
  : World :=
  {| self := self w; heap := heap w; logging := f (logging w); trace := trace w |}.

(** How often a kind of call occurs in a trace. *)
Definition count_events (kind : Event -> bool) (t : list Event) : nat :=
  length (List.filter kind t).

Definition is_CreateVenv (e : Event) : bool :=
  match e with CreateVenv _ => true | _ => false end.
Definition is_CreatePoetry (e : Event) : bool :=
  match e with CreatePoetry _ _ => true | _ => false end.
Definition is_LoadPlugins (e : Event) : bool :=
  match e with LoadPlugins _ => true | _ => false end.
Definition is_Activate (e : Event) : bool :=
  match e with Activate _ => true | _ => false end.

(** The part of the state that plugin loading is about: the loaded flag,
    and how often discovery and activation have been called. *)
Definition plugin_state (w : World) : bool * nat * nat :=
  (_plugins_loaded (self w),
   count_events is_LoadPlugins (trace w),
   count_events is_Activate (trace w)).

(** A computation that neither touches the flag nor calls the plugin
    manager. *)
Definition keeps_plugin_state {A} (m : M World A) : Prop :=
  forall w, plugin_state (fst (m w)) = plugin_state w.

(** Record one call to the outside. *)
Definition emit (e : Event) : M World unit :=
  modify (fun w => {| self := self w; heap := heap w; logging := logging w;
                      trace := trace w ++ [e] |}).

Definition assign_poetry (p : option ref) (a : Application) : Application :=
  {| info := info a; _poetry := p; _io := _io a;
     _disable_plugins := _disable_plugins a;
     _plugins_loaded := _plugins_loaded a;
     _solution_provider_repository := _solution_provider_repository a;
     _command_loader := _command_loader a |}.

Definition assign_disable_plugins (v : PyVal) (a : Application) : Application :=
  {| info := info a; _poetry := _poetry a; _io := _io a;
     _disable_plugins := v;
     _plugins_loaded := _plugins_loaded a;
     _solution_provider_repository := _solution_provider_repository a;
     _command_loader := _command_loader a |}.

Definition assign_plugins_loaded (b : bool) (a : Application) : Application :=
  {| info := info a; _poetry := _poetry a; _io := _io a;
     _disable_plugins := _disable_plugins a;
     _plugins_loaded := b;
     _solution_provider_repository := _solution_provider_repository a;
     _command_loader := _command_loader a |}.

Definition assign_solution_provider_repository
    (r : SolutionProviderRepository) (a : Application) : Application :=
  {| info := info a; _poetry := _poetry a; _io := _io a;
     _disable_plugins := _disable_plugins a;
     _plugins_loaded := _plugins_loaded a;
     _solution_provider_repository := Some r;
     _command_loader := _command_loader a |}.

(** ** Command loading ([load_command]) *)

(** [s.split(" ")] *)
Fixpoint split_space (s : string) : list string :=
  match s with
  | EmptyString => [""]
  | String c r =>
      if Ascii.eqb c " " then "" :: split_space r
      else match split_space r with
           | w :: ws => String c w :: ws
           | [] => [String c ""]
           end
  end.

Definition is_lower (c : ascii) : bool :=
  (97 <=? nat_of_ascii c)%nat && (nat_of_ascii c <=? 122)%nat.
Definition is_upper (c : ascii) : bool :=
  (65 <=? nat_of_ascii c)%nat && (nat_of_ascii c <=? 90)%nat.
Definition upper (c : ascii) : ascii :=
  if is_lower c then ascii_of_nat (nat_of_ascii c - 32) else c.
Definition lower (c : ascii) : ascii :=
  if is_upper c then ascii_of_nat (nat_of_ascii c + 32) else c.

(** [s.title()] on ASCII text: a letter that follows a letter is lowered,
    any other letter is raised. *)
Fixpoint title_from (previous_is_cased : bool) (s : string) : string :=
  match s with
  | EmptyString => EmptyString
  | String c r =>
      if is_lower c || is_upper c then
        String (if previous_is_cased then lower c else upper c) (title_from true r)
      else String c (title_from false r)
  end.

Definition title (s : string) : string := title_from false s.

(** The module a command lives in and the class it is looked up under. *)
Definition command_module (name : string) : string :=
  "poetry.console.commands." ++ String.concat "." (split_space name).

Definition command_class_name (name : string) : string :=
  String.concat "" (map title (split_space name)) ++ "Command".

Definition COMMANDS : list string :=
  [ "about"; "add"; "build"; "check"; "config"; "export"; "init"; "install";
    "lock"; "new"; "publish"; "remove"; "run"; "search"; "shell"; "show";
    "update"; "version";
    "cache clear"; "cache list";
    "debug info"; "debug resolve";
    "env info"; "env list"; "env remove"; "env use";
    "plugin add"; "plugin remove"; "plugin show";
    "self update";
    "source add"; "source remove"; "source show" ].

(** ** The application shell *)

Section Shell.

(** [Factory().create_poetry(Path.cwd(), io=..., disable_plugins=...)] *)
Variable create_poetry : option IO -> PyVal -> outcome Poetry.
(** [EnvManager(poetry).create_venv(io)] *)
Variable create_venv : Poetry -> IO -> outcome Env.
(** [config.get(key, default)] *)
Variable config_get : Config -> string -> PyVal -> PyVal.
(** [input.parameter_option(name)] and [input.has_parameter_option(name)] *)
Variable parameter_option : Input -> string -> PyVal.
Variable has_parameter_option : Input -> string -> bool.
(** [PluginManager(group).load_plugins()] and [.activate(application)] *)
Variable load_plugins : string -> outcome unit.
Variable activate : string -> outcome unit.
(** [import_module(name)]: the attributes of the module; a class is the
    constructor that [command_class()] calls. *)
Variable import_module : string -> outcome (dict (unit -> outcome Command)).
(** The command name the base class reads off the input. *)
Variable get_command_name : IO -> string.
(** The command's own execution. *)
Variable execute : Command -> IO -> outcome Z.

(** A call to the outside: recorded, then its outcome. *)
Definition call {A} (e : Event) (r : outcome A) : M World A :=
  (let! _ := emit e in lift_outcome r)%monad.

(** [load_command(name)], the closure it returns. *)
Definition load_command (name : string) : unit -> outcome Command :=
  fun _ =>
    match import_module (command_module name) with
    | Raise e => Raise e
    | Ok module =>
        match dict_get (command_class_name name) module with
        | Some command_class => command_class tt
        | None => Raise (PyError "AttributeError" (command_class_name name))
        end
    end.

(** [__init__] *)
Definition Application_init (base_definition : InputDefinition) : Application :=
  {| info := {| _name := Some "poetry";
                definition := _default_definition base_definition |};
     _poetry := None;
     _io := None;
     _disable_plugins := PyBool false;
     _plugins_loaded := false;
     _solution_provider_repository := None;
     _command_loader :=
       fold_left (fun acc name => dict_set name (load_command name) acc)
         COMMANDS [] |}.

(** The [poetry] property. *)
Definition poetry : M World ref :=
  (let! w := get in
   match _poetry (self w) with
   | Some p => ret p
   | None =>
       let! obj :=
         call (CreatePoetry (_io (self w)) (_disable_plugins (self w)))
           (create_poetry (_io (self w)) (_disable_plugins (self w))) in
       let p := fresh (dom (heap w)) in
       let! _ := modify (with_heap (insert p obj)) in
       let! _ := modify (with_self (assign_poetry (Some p))) in
       ret p
   end)%monad.

Definition reset_poetry : M World unit :=
  modify (with_self (assign_poetry None)).

(** Reading an attribute of the Poetry object behind a reference. *)
Definition deref (p : ref) : M World Poetry :=
  (let! w := get in
   match heap w !! p with
   | Some obj => ret obj
   | None => raise (PyError "ReferenceError" "")
   end)%monad.

(** Modelled from the spec: [command.poetry], whose class is not part of
    these two files, is the shell's current working context, i.e. the
    [poetry] property of the application. *)
Definition command_poetry (command : Command) : M World ref := poetry.

(** *** The pre-execution listeners *)

Definition base_loggers : list string :=
  [ "poetry.packages.locker"; "poetry.packages.package";
    "poetry.utils.password_manager" ].

(** Lines 255-264. *)
Definition logger_level (io : IO) (name : string) : Z :=
  let level := WARNING in
  let level :=
    if startswith "poetry.core.masonry.builders" name then INFO else level in
  if is_debug io then DEBUG
  else if is_very_verbose io || is_verbose io then INFO
  else level.

Definition set_handlers (hs : list Handler) (l : Logger) : Logger :=
  {| handlers := hs; level := level l |}.

Definition setLevel (lv : Z) (l : Logger) : Logger :=
  {| handlers := handlers l; level := lv |}.

(** Lines 251-266, one turn of the loop. *)
Definition configure_logger (handler : Handler) (io : IO) (name : string)
  : M World unit :=
  modify (with_logging (fun registry =>
    let logger := getLogger name registry in
    let logger := set_handlers [handler] logger in
    <[name := setLevel (logger_level io name) logger]> registry)).

Definition register_command_loggers (command : Command) (io : IO)
  : M World Command :=
  if negb (is_Command command) then ret command
  else
    let loggers_ := base_loggers ++ loggers command in
    let handler := {| handler_io := io; handler_formatter := None |} in
    let handler := setFormatter IOFormatter handler in
    (let! _ := for_each loggers_ (configure_logger handler io) in
     ret command)%monad.

Definition configure_env (command : Command) (io : IO) : M World Command :=
  if negb (is_EnvCommand command) then ret command
  else
    match env command with
    | Some _ => ret command
    | None =>
        (let! p := command_poetry command in
         let! poetry_ := deref p in
         let! env_ := call (CreateVenv p) (create_venv poetry_ io) in
         let! _ :=
           if env_is_venv env_ && is_verbose io then
             emit (WriteLine ("Using virtualenv: <comment>" ++ env_path env_ ++ "</>"))
           else ret tt in
         ret (set_env env_ command))%monad
    end.

Definition _configure_installer (command : Command) (io : IO)
  : M World Command :=
  (let! p := command_poetry command in
   let! poetry_ := deref p in
   let installer_ :=
     {| installer_io := io;
        installer_env := env command;
        installer_package := _package poetry_;
        installer_locker := _locker poetry_;
        installer_pool := _pool poetry_;
        installer_config := _config poetry_;
        installer_use_executor :=
          config_get (_config poetry_) "experimental.new-installer"
            (PyBool false) |} in
   ret (set_installer installer_ command))%monad.

Definition configure_installer (command : Command) (io : IO)
  : M World Command :=
  if negb (is_InstallerCommand command) then ret command
  else
    match installer command with
    | Some _ => ret command
    | None => _configure_installer command io
    end.

(** The listeners of the [COMMAND] event, in the order [__init__]
    registers them. *)
Definition COMMAND_listeners : list (Command -> IO -> M World Command) :=
  [ register_command_loggers; configure_env; configure_installer ].

(** The dispatcher calls the listeners one after the other on the same
    command object; an exception ends the dispatch. *)
Fixpoint dispatch (listeners : list (Command -> IO -> M World Command))
    (command : Command) (io : IO) : M World Command :=
  match listeners with
  | [] => ret command
  | l :: ls => bind (l command io) (fun command' => dispatch ls command' io)
  end.

Definition pipeline : Command -> IO -> M World Command :=
  dispatch COMMAND_listeners.

(** [n] dispatches in a row on the same command object. *)
Fixpoint pipeline_runs (n : nat) (command : Command) (io : IO)
  : M World Command :=
  match n with
  | O => ret command
  | S n' => bind (pipeline command io)
              (fun command' => pipeline_runs n' command' io)
  end.

(** *** Plugins and the run loop *)

Definition plugin_group : string := "application.plugin".

Definition _load_plugins (io : IO) : M World unit :=
  (let! w := get in
   if _plugins_loaded (self w) then ret tt
   else
     let! _ := modify (with_self (assign_disable_plugins
                 (PyBool (has_parameter_option (input io) "--no-plugins")))) in
     let! w := get in
     let! _ :=
       if negb (truthy (_disable_plugins (self w))) then
         let! _ := call (LoadPlugins plugin_group) (load_plugins plugin_group) in
         call (Activate plugin_group) (activate plugin_group)
       else ret tt in
     modify (with_self (assign_plugins_loaded true)))%monad.

(** Modelled from the spec: [CommandLoader.get(name)], whose class is not
    among the source files: an unregistered name is an error of its own;
    a registered one is constructed by its loader, whose failure is not
    caught. *)
Definition resolve (name : string) : M World Command :=
  (let! w := get in
   match dict_get name (_command_loader (self w)) with
   | None => raise (PyError "UnknownCommand" name)
   | Some loader => lift_outcome (loader tt)
   end)%monad.

(** Modelled from the spec: [_run] of the base class (the cleo library)
    resolves the command, fires the [COMMAND] listeners in registration
    order and then lets the command execute. *)
Definition base_run (io : IO) : M World Z :=
  (let! command := resolve (get_command_name io) in
   let! command := pipeline command io in
   call (Execute (command_name command)) (execute command io))%monad.

Definition _run (io : IO) : M World Z :=
  (let! _ := modify (with_self (assign_disable_plugins
               (parameter_option (input io) "--no-plugins"))) in
   let! _ := _load_plugins io in
   base_run io)%monad.

Definition _get_solution_provider_repository : SolutionProviderRepository :=
  {| solution_providers := ["PythonRequirementSolutionProvider"] |}.

(** [render_error]: the provider repository is installed here, then the
    base class prints the error. *)
Definition render_error (error : exn) (io : IO) : M World unit :=
  (let! _ := modify (with_self (assign_solution_provider_repository
               _get_solution_provider_repository)) in
   emit (RenderError error))%monad.

(** Modelled from the spec: the top-level step of the base class around
    [_run]: an exception that leaves [_run] is handed to [render_error]
    and the run ends with exit code 1. *)
Definition run_and_render (io : IO) : M World Z :=
  fun w =>
    match _run io w with
    | (w', Ok exit_code) => (w', Ok exit_code)
    | (w', Raise e) => (fst (render_error e io w'), Ok 1%Z)
    end.

(** One top-level run for each input, in the same process. *)
Fixpoint runs (ios : list IO) : M World unit :=
  match ios with
  | [] => ret tt
  | io :: rest => bind (run_and_render io) (fun _ => runs rest)
  end.

End Shell.

(** ** Concrete collaborators

    One instance of the collaborators of the shell, for running it on
    examples: the factory, the environment manager and the plugin manager
    succeed, the only module that can be imported is the one of the
    [install] command. *)
Module ToyShell.

Definition the_poetry : Poetry :=
  {| _file := "pyproject.toml"; _local_config := []; _package := 1;
     _locker := 2; _config := 3; _pool := 4; _plugin_manager := None |}.

Definition create_poetry (io : option IO) (disable_plugins : PyVal)
  : outcome Poetry := Ok the_poetry.

Definition the_env : Env := {| env_path := "/venv"; env_is_venv := true |}.

Definition create_venv (p : Poetry) (io : IO) : outcome Env := Ok the_env.

Definition config_get (c : Config) (key : string) (default : PyVal) : PyVal :=
  default.

Definition has_parameter_option (i : Input) (name : string) : bool :=
  existsb (String.eqb name) (_tokens (as_ArgvInput i)).

Definition parameter_option (i : Input) (name : string) : PyVal :=
  PyBool (has_parameter_option i name).

Definition load_plugins (group : string) : outcome unit := Ok tt.
Definition activate (group : string) : outcome unit := Ok tt.

Definition install_command : Command :=
  {| command_name := "install"; is_Command := true; is_EnvCommand := true;
     is_InstallerCommand := true; loggers := ["poetry.repositories.pypi_repository"];
     env := None; installer := None |}.

(** A command of the input library itself, with none of the three
    capabilities. *)
Definition list_command : Command :=
  {| command_name := "list"; is_Command := false; is_EnvCommand := false;
     is_InstallerCommand := false; loggers := [];
     env := None; installer := None |}.

Definition import_module (name : string)
  : outcome (dict (unit -> outcome Command)) :=
  if String.eqb name "poetry.console.commands.install"
  then Ok [("InstallCommand", fun _ => Ok install_command)]
  else Raise (PyError "ModuleNotFoundError" name).

Definition get_command_name (io : IO) : string :=
  default "list" (ToyCleo.first_argument (input io)).

Definition execute (c : Command) (io : IO) : outcome Z := Ok 0%Z.

(** Collaborators that fail. *)
Definition failing_create_venv (p : Poetry) (io : IO) : outcome Env :=
  Raise (PyError "EnvError" "no python").
Definition failing_load_plugins (group : string) : outcome unit :=
  Raise (PyError "PluginError" group).

(** The process right after [Application()]. *)
Definition initial : World :=
  {| self := Application_init import_module ToyCleo.global_definition;
     heap := ∅; logging := ∅; trace := [] |}.

End ToyShell.

(** ** Further parts of the two files *)

(** *** Getters of the Poetry object ([poetry.py], lines 41-51) *)

Definition Poetry_locker (self : ref) (h : gmap ref Poetry) : option BaseLocker :=
  _locker <$> h !! self.

Definition Poetry_pool (self : ref) (h : gmap ref Poetry) : option Pool :=
  _pool <$> h !! self.

Definition Poetry_config (self : ref) (h : gmap ref Poetry) : option Config :=
  _config <$> h !! self.

(** *** [create_io] *)

(** [cleo.formatters.style.Style(foreground, options=...)] *)
Record Style : Type := {
  style_foreground : string;
  style_options : list string
}.

(** The text stream behind an output: its encoding and, when it has one,
    its underlying binary buffer. *)
Record Stream : Type := {
  encoding : string;
  buffer : option nat
}.

(** An output: its stream, when it has a [_stream] attribute, and the
    styles of its formatter. *)
Record Output : Type := {
  _stream : option Stream;
  formatter : dict Style
}.

(** The io object as [create_io] sees it. *)
Record ConsoleIO : Type := {
  io_core : IO;
  output : Output;
  error_output : Output
}.

(** [formatter.set_style(name, style)] *)
Definition set_style (name : string) (style : Style) (f : dict Style)
  : dict Style :=
  dict_set name style f.

(** [output.set_formatter(formatter)] *)
Definition set_formatter (f : dict Style) (o : Output) : Output :=
  {| _stream := _stream o; formatter := f |}.

(** [io_.TextIOWrapper(stream.buffer, encoding="utf-8")] *)
Definition TextIOWrapper_utf8 (s : Stream) : Stream :=
  {| encoding := "utf-8"; buffer := buffer s |}.

Definition assign_io (io : option IO) (a : Application) : Application :=
  {| info := info a; _poetry := _poetry a; _io := io;
     _disable_plugins := _disable_plugins a;
     _plugins_loaded := _plugins_loaded a;
     _solution_provider_repository := _solution_provider_repository a;
     _command_loader := _command_loader a |}.

(** The styles of lines 157-168 as a table, in the order they are set. *)
Definition cli_styles : dict Style :=
  [ ("c1", {| style_foreground := "cyan"; style_options := [] |});
    ("c2", {| style_foreground := "default"; style_options := ["bold"] |});
    ("info", {| style_foreground := "blue"; style_options := [] |});
    ("comment", {| style_foreground := "green"; style_options := [] |});
    ("warning", {| style_foreground := "yellow"; style_options := [] |});
    ("debug", {| style_foreground := "default"; style_options := ["dark"] |});
    ("success", {| style_foreground := "green"; style_options := [] |});
    ("c1_dark", {| style_foreground := "cyan"; style_options := ["dark"] |});
    ("c2_dark", {| style_foreground := "default";
                   style_options := ["bold"; "dark"] |});
    ("success_dark", {| style_foreground := "green"; style_options := ["dark"] |}) ].

Section CreateIO.

(** [poetry.core.utils._compat.PY37] *)
Variable PY37 : bool.
(** [BaseApplication.create_io(input, output, error_output)] *)
Variable base_create_io :
  option Input -> option Output -> option Output -> ConsoleIO.

(** Lines 143-148. *)
Definition needs_utf8_wrapper (o : Output) : bool :=
  negb PY37
  && match _stream o with
     | Some s =>
         match buffer s with
         | Some _ => negb (String.eqb (encoding s) "utf-8")
         | None => false
         end
     | None => false
     end.

Definition create_io (input_ : option Input) (output_ error_output_ : option Output)
  : M World ConsoleIO :=
  fun w =>
    let io := base_create_io input_ output_ error_output_ in
    let out :=
      if needs_utf8_wrapper (output io) then
        {| _stream := TextIOWrapper_utf8 <$> _stream (output io);
           formatter := formatter (output io) |}
      else output io in
    let formatter_ := formatter out in
    let formatter_ :=
      set_style "c1" {| style_foreground := "cyan"; style_options := [] |}
        formatter_ in
    let formatter_ :=
      set_style "c2" {| style_foreground := "default"; style_options := ["bold"] |}
        formatter_ in
    let formatter_ :=
      set_style "info" {| style_foreground := "blue"; style_options := [] |}
        formatter_ in
    let formatter_ :=
      set_style "comment" {| style_foreground := "green"; style_options := [] |}
        formatter_ in
    let formatter_ :=
      set_style "warning" {| style_foreground := "yellow"; style_options := [] |}
        formatter_ in
    let formatter_ :=
      set_style "debug" {| style_foreground := "default"; style_options := ["dark"] |}
        formatter_ in
    let formatter_ :=
      set_style "success" {| style_foreground := "green"; style_options := [] |}
        formatter_ in
    let formatter_ :=
      set_style "c1_dark" {| style_foreground := "cyan"; style_options := ["dark"] |}
        formatter_ in
    let formatter_ :=
      set_style "c2_dark"
        {| style_foreground := "default"; style_options := ["bold"; "dark"] |}
        formatter_ in
    let formatter_ :=
      set_style "success_dark"
        {| style_foreground := "green"; style_options := ["dark"] |}
        formatter_ in
    let io :=
      {| io_core := io_core io;
         output := set_formatter formatter_ out;
         error_output := set_formatter formatter_ (error_output io) |} in
    (with_self (assign_io (Some (io_core io))) w, Ok io).

End CreateIO.

(** *** Relations between the state before and after a computation *)

(** Every run of [m] takes a state to one related to it by [R]. *)
Definition follows (R : World -> World -> Prop) {A} (m : M World A) : Prop :=
  forall w, R w (fst (m w)).

(** The states agree on an observation. *)
Definition same {X} (proj : World -> X) : World -> World -> Prop :=
  fun w w' => proj w' = proj w.

(** The application object is what it was, except for the cached Poetry
    instance. *)
Definition only_cache_changes (w w' : World) : Prop :=
  self w' = assign_poetry (_poetry (self w')) (self w).

(** [s.replace(" ", ".")] *)
Fixpoint replace_space_by_dot (s : string) : string :=
  match s with
  | EmptyString => EmptyString
  | String c r =>
      String (if Ascii.eqb c " " then "."%char else c) (replace_space_by_dot r)
  end.

Fixpoint has_space (s : string) : bool :=
  match s with
  | EmptyString => false
  | String c r => Ascii.eqb c " " || has_space r
  end.

(** A parser that stores a value for an option the definition does not
    have. *)
Definition stray_option_parse (d : InputDefinition) (tokens : list string)
  : ParseResult :=
  {| parsed_options := [("bogus", PyBool true)];
     parsed_arguments := [("command", PyStr "run")];
     parse_error := None |}.

(** A factory that fails, as outside a project directory. *)
Definition failing_create_poetry (io : option IO) (disable_plugins : PyVal)
  : outcome Poetry :=
  Raise (PyError "RuntimeError" "Poetry could not find a pyproject.toml file").

(** A plugin manager whose activation fails. *)
Definition failing_activate (group : string) : outcome unit :=
  Raise (PyError "PluginError" group).

(** A base class that builds the io from what it is given, with an
    ASCII-encoded standard output when none is given. *)
Definition plain_create_io (i : option Input) (o eo : option Output) : ConsoleIO :=
  {| io_core := {| input := default (Argv (ArgvInput_new [])) i;
                   is_debug := false; is_very_verbose := false;
                   is_verbose := false |};
     output :=
       default {| _stream := Some {| encoding := "ascii"; buffer := Some 1 |};
                  formatter := [("error", {| style_foreground := "red";
                                             style_options := [] |})] |} o;
     error_output :=
       default {| _stream := Some {| encoding := "ascii"; buffer := Some 2 |};
                  formatter := [] |} eo |}.

(** *** The run loop of the base class *)

Section RunLoop.

Variable argv_parse : InputDefinition -> list string -> ParseResult.
Variable run_argv_parse :
  InputDefinition -> list string -> list string -> ParseResult.
Variable first_argument : Input -> option string.
Variable base_configure_io : M IO unit.
Variable create_poetry : option IO -> PyVal -> outcome Poetry.
Variable create_venv : Poetry -> IO -> outcome Env.
Variable config_get : Config -> string -> PyVal -> PyVal.
Variable parameter_option : Input -> string -> PyVal.
Variable has_parameter_option : Input -> string -> bool.
Variable load_plugins : string -> outcome unit.
Variable activate : string -> outcome unit.
Variable get_command_name : IO -> string.
Variable execute : Command -> IO -> outcome Z.

(** Modelled from the spec: one run of the shell (sections 2 and 4.4).
    The io is configured by [_configure_io], the command is dispatched by
    [_run], and an unhandled error of either step is handed to
    [render_error]; the run then ends with exit code 1. *)
Definition run (io : IO) : M World Z :=
  fun w =>
    match _configure_io argv_parse run_argv_parse first_argument
            base_configure_io (info (self w)) io with
    | (io', Ok _) =>
        run_and_render create_poetry create_venv config_get parameter_option
          has_parameter_option load_plugins activate get_command_name execute
          io' w
    | (io', Raise e) => (fst (render_error e io' w), Ok 1%Z)
    end.

End RunLoop.

(** A parse whose [CleoException], if it ended with one, is dropped:
    what a [suppress(CleoException)] block around a bind makes of the
    parser.  Not part of the program; the rewrite is compared with
    itself over such parsers. *)
Definition silenced (p : ParseResult) : ParseResult :=
  {| parsed_options := parsed_options p;
     parsed_arguments := parsed_arguments p;
     parse_error := match parse_error p with
                    | Some e => if is_CleoException e then None else Some e
                    | None => None
                    end |}.

(** * Properties *)

(** ** Strings and dictionaries *)

Example re_split_bar_dash_packed :
  re_split_bar_dash "v|-vv|-vvv" = ["v"; "vv"; "vvv"].
Proof. reflexivity. Qed.

Example re_split_bar_dash_empty_pieces :
  re_split_bar_dash "a||b|" = ["a"; ""; "b"; ""].
Proof. reflexivity. Qed.

Example shortcut_aliases_stray_dashes :
  shortcut_aliases "--a|--b||c" = ["a"; "-b"; "c"] /\
  map alias_parameter_option (shortcut_aliases "--a|--b||c") = ["-a"; "-b"; "-c"].
Proof. split; reflexivity. Qed.

Example command_class_name_namespaced :
  command_module "cache clear" = "poetry.console.commands.cache.clear" /\
  command_class_name "cache clear" = "CacheClearCommand".
Proof. split; reflexivity. Qed.

Example command_class_name_simple :
  map command_class_name ["install"; "self update"]
  = ["InstallCommand"; "SelfUpdateCommand"].
Proof. reflexivity. Qed.

Lemma lstrip_dash_idem s : lstrip_dash (lstrip_dash s) = lstrip_dash s.
Proof.
  induction s as [|c r IH]; simpl; [reflexivity|].
  destruct (Ascii.eqb c "-") eqn:E; [exact IH|].
  simpl. rewrite E. reflexivity.
Qed.

(** What is left after stripping does not start with a dash. *)
Lemma lstrip_dash_head s c r : lstrip_dash s = String c r -> c <> "-"%char.
Proof.
  induction s as [|c' r' IH]; simpl; [discriminate|].
  destruct (Ascii.eqb c' "-") eqn:E; [exact IH|].
  intros [= -> ->]. intros ->. discriminate.
Qed.

Lemma trailing_tokens_suffix name tokens :
  exists leading, tokens = leading ++ trailing_tokens name tokens.
Proof.
  induction tokens as [|t rest [leading IH]]; simpl.
  - by exists [].
  - destruct (String.eqb t name).
    + by exists [].
    + exists (t :: leading). simpl. by rewrite <- IH.
Qed.

Lemma re_split_bar_dash_nonnil s : re_split_bar_dash s <> [].
Proof.
  destruct s as [|c r]; simpl; [discriminate|].
  destruct (Ascii.eqb c "|").
  - destruct r as [|d r']; [discriminate|]. destruct (Ascii.eqb d "-"); discriminate.
  - destruct (re_split_bar_dash r); discriminate.
Qed.

Lemma concat_bar_cons f fs :
  fs <> [] -> String.concat "|" (f :: fs) = (f ++ "|" ++ String.concat "|" fs)%string.
Proof. destruct fs; [done | reflexivity]. Qed.

(** The pieces are free of bars, and joined by bars they give the string
    back, up to the dashes the delimiters swallowed. *)
Lemma re_split_bar_dash_spec s :
  Forall (fun f => has_bar f = false) (re_split_bar_dash s) /\
  String.concat "|" (re_split_bar_dash s) = drop_dash_after_bar s.
Proof.
  induction s as [s IH] using (well_founded_induction
    (well_founded_ltof _ String.length)).
  destruct s as [|c r]; simpl.
  - split; [repeat (apply List.Forall_cons; [reflexivity|]); apply List.Forall_nil | reflexivity].
  - destruct (Ascii.eqb c "|") eqn:Ec.
    + destruct r as [|d r'].
      * split; [repeat (apply List.Forall_cons; [reflexivity|]); apply List.Forall_nil |].
        apply Ascii.eqb_eq in Ec as ->. reflexivity.
      * destruct (Ascii.eqb d "-") eqn:Ed.
        -- destruct (IH r') as [H1 H2]; [unfold ltof; simpl; lia|].
           split; [by apply List.Forall_cons|].
           rewrite concat_bar_cons by apply re_split_bar_dash_nonnil.
           rewrite H2. apply Ascii.eqb_eq in Ec as ->. reflexivity.
        -- destruct (IH (String d r')) as [H1 H2]; [unfold ltof; simpl; lia|].
           split; [by apply List.Forall_cons|].
           rewrite concat_bar_cons by apply re_split_bar_dash_nonnil.
           rewrite H2. apply Ascii.eqb_eq in Ec as ->. reflexivity.
    + destruct (IH r) as [H1 H2]; [unfold ltof; simpl; lia|].
      pose proof (re_split_bar_dash_nonnil r) as Hnil.
      destruct (re_split_bar_dash r) as [|f fs]; [done|].
      apply Forall_cons in H1 as [Hf Hfs].
      split.
      * apply List.Forall_cons; [|done]. simpl. by rewrite Ec, Hf.
      * rewrite <- H2. destruct fs; reflexivity.
Qed.

Lemma shortcut_aliases_spec shortcut alias :
  alias ∈ shortcut_aliases shortcut ->
  alias <> "" /\ has_bar alias = false /\
  alias ∈ re_split_bar_dash (lstrip_dash shortcut).
Proof.
  unfold shortcut_aliases. intros Hin.
  apply list_elem_of_filter in Hin as [Hne Hin].
  split; [|split; [|done]].
  - intros ->. done.
  - destruct (re_split_bar_dash_spec (lstrip_dash shortcut)) as [H _].
    rewrite Forall_forall in H. by apply H.
Qed.

(** A declared short form is one dash followed by something that does not
    start with a dash. *)
Lemma alias_parameter_option_single_dash alias :
  exists rest, alias_parameter_option alias = String "-" rest /\
               starts_with_dash rest = false.
Proof.
  unfold alias_parameter_option. exists (lstrip_dash alias). split; [reflexivity|].
  destruct (lstrip_dash alias) as [|c r] eqn:E; [reflexivity|].
  simpl. apply Ascii.eqb_neq. by eapply lstrip_dash_head.
Qed.

Lemma shortcut_aliases_all_dashes shortcut :
  lstrip_dash shortcut = "" -> shortcut_aliases shortcut = [].
Proof. unfold shortcut_aliases. by intros ->. Qed.

Section DictFacts.
Context {V : Type}.
Implicit Types (d : dict V) (k : string) (v : V).

Lemma dict_get_set_eq k v d : dict_get k (dict_set k v d) = Some v.
Proof.
  induction d as [|[k' v'] d IH]; simpl.
  - by rewrite String.eqb_refl.
  - destruct (String.eqb k k') eqn:E; simpl; rewrite E; [done | exact IH].
Qed.

Lemma dict_get_set_ne k k' v d :
  k <> k' -> dict_get k' (dict_set k v d) = dict_get k' d.
Proof.
  intros Hne. induction d as [|[k0 v0] d IH]; simpl.
  - destruct (String.eqb_spec k' k); [congruence | done].
  - destruct (String.eqb_spec k k0) as [->|Hk]; simpl.
    + destruct (String.eqb_spec k' k0); [congruence | done].
    + destruct (String.eqb_spec k' k0); [done | exact IH].
Qed.

Lemma dict_keys_set k v d k' :
  k' ∈ dict_keys (dict_set k v d) <-> k' = k \/ k' ∈ dict_keys d.
Proof.
  unfold dict_keys. induction d as [|[k0 v0] d IH]; simpl.
  - set_solver.
  - destruct (String.eqb_spec k k0) as [->|Hk]; simpl.
    + rewrite !elem_of_cons. tauto.
    + rewrite !elem_of_cons, IH. tauto.
Qed.

Lemma dict_set_NoDup k v d :
  NoDup (dict_keys d) -> NoDup (dict_keys (dict_set k v d)).
Proof.
  unfold dict_keys. induction d as [|[k0 v0] d IH]; simpl; intros Hnd.
  - apply NoDup_singleton.
  - apply NoDup_cons in Hnd as [Hnotin Hnd].
    destruct (String.eqb_spec k k0) as [->|Hk]; simpl.
    + apply NoDup_cons; done.
    + apply NoDup_cons. split; [|auto].
      intros Hin. apply (dict_keys_set k v d k0) in Hin as [->|Hin]; done.
Qed.

Lemma dict_get_Some_elem k v d : dict_get k d = Some v -> (k, v) ∈ d.
Proof.
  induction d as [|[k0 v0] d IH]; simpl; [done|].
  destruct (String.eqb_spec k k0) as [->|Hk].
  - intros [= ->]. left.
  - intros H. right. auto.
Qed.

Lemma dict_get_elem k v d :
  NoDup (dict_keys d) -> (k, v) ∈ d -> dict_get k d = Some v.
Proof.
  unfold dict_keys. induction d as [|[k0 v0] d IH]; simpl; intros Hnd Hin.
  - by apply elem_of_nil in Hin.
  - apply NoDup_cons in Hnd as [Hnotin Hnd].
    apply elem_of_cons in Hin as [[= -> ->]|Hin].
    + by rewrite String.eqb_refl.
    + destruct (String.eqb_spec k k0) as [->|Hk]; [|auto].
      exfalso. apply Hnotin. apply list_elem_of_fmap. by exists (k0, v).
Qed.

Lemma dict_update_NoDup d d2 :
  NoDup (dict_keys d) -> NoDup (dict_keys (dict_update d d2)).
Proof.
  unfold dict_update. revert d.
  induction d2 as [|[k v] d2 IH]; simpl; intros d Hnd; [done|].
  apply IH. by apply dict_set_NoDup.
Qed.

Lemma dict_update_keys d d2 k :
  k ∈ dict_keys (dict_update d d2) <-> k ∈ dict_keys d \/ k ∈ dict_keys d2.
Proof.
  unfold dict_update. revert d.
  induction d2 as [|[k0 v0] d2 IH]; simpl; intros d.
  - unfold dict_keys. simpl. set_solver.
  - rewrite IH, dict_keys_set. unfold dict_keys. simpl. set_solver.
Qed.

End DictFacts.

Lemma has_option_find d name :
  has_option d name = true <-> exists o, definition_option d name = Ok o.
Proof.
  unfold has_option, definition_option.
  induction d as [|o d IH]; simpl.
  - split; [done | intros [? ?]; done].
  - destruct (String.eqb name (opt_name o)); simpl; [|exact IH].
    split; [eauto | done].
Qed.

(** [definition.option(name)] returns an option of that name. *)
Lemma definition_option_name d name o :
  definition_option d name = Ok o -> opt_name o = name.
Proof.
  unfold definition_option.
  destruct (find _ d) as [o'|] eqn:E; [|done].
  intros [= ->]. apply find_some in E as [_ E].
  by apply String.eqb_eq in E.
Qed.

Lemma option_defaults_spec d :
  NoDup (dict_keys (option_defaults d)) /\
  forall k, k ∈ dict_keys (option_defaults d) -> has_option d k = true.
Proof.
  unfold option_defaults.
  cut (forall acc : dict PyVal,
          NoDup (dict_keys acc) ->
          NoDup (dict_keys (fold_left
                   (fun acc o => dict_set (opt_name o) (opt_default o) acc) d acc)) /\
          forall k, k ∈ dict_keys (fold_left
                   (fun acc o => dict_set (opt_name o) (opt_default o) acc) d acc) ->
                    k ∈ dict_keys acc \/ has_option d k = true).
  { intros H. destruct (H [] (NoDup_nil_2)) as [H1 H2]. split; [done|].
    intros k Hk. destruct (H2 k Hk) as [Hin|]; [|done].
    by apply elem_of_nil in Hin. }
  induction d as [|o d IH]; simpl; intros acc Hnd.
  - split; [done | auto].
  - destruct (IH (dict_set (opt_name o) (opt_default o) acc)) as [H1 H2].
    { by apply dict_set_NoDup. }
    split; [done|]. intros k Hk.
    destruct (H2 k Hk) as [Hin|Hin].
    + apply dict_keys_set in Hin as [->|Hin]; [|by left].
      right. unfold has_option. simpl. by rewrite String.eqb_refl.
    + right. unfold has_option in *. simpl. rewrite Hin. apply orb_true_r.
Qed.

Lemma input_options_NoDup a : NoDup (dict_keys (input_options a)).
Proof. apply dict_update_NoDup, option_defaults_spec. Qed.

Lemma input_options_declared a k :
  forallb (has_option (_definition a)) (dict_keys (_options a)) = true ->
  k ∈ dict_keys (input_options a) -> has_option (_definition a) k = true.
Proof.
  intros Hall Hk. apply dict_update_keys in Hk as [Hk|Hk].
  - by apply option_defaults_spec.
  - rewrite forallb_forall in Hall. apply Hall. by apply list_elem_of_In.
Qed.

(** ** The input rebinder *)

Section RebinderFacts.

Variable argv_parse : InputDefinition -> list string -> ParseResult.
Variable run_argv_parse :
  InputDefinition -> list string -> list string -> ParseResult.
Variable first_argument : Input -> option string.

Notation rebind' := (rebind argv_parse run_argv_parse first_argument).
Notation Input_bind' := (Input_bind argv_parse run_argv_parse).
Notation first_bound' := (first_bound argv_parse run_argv_parse).
Notation second_parse' := (second_parse argv_parse run_argv_parse).
Notation rebuilt_input' := (rebuilt_input argv_parse run_argv_parse).

Lemma add_params_nil r : add_params [] r = r.
Proof. destruct r. unfold add_params. simpl. by rewrite app_nil_r. Qed.

Lemma add_params_app l1 l2 r :
  add_params l2 (add_params l1 r) = add_params (l1 ++ l2) r.
Proof. unfold add_params. simpl. by rewrite app_assoc. Qed.

Lemma declare_aliases aliases r :
  for_each aliases
    (fun alias => add_parameter_option (alias_parameter_option alias)) r
  = (add_params (map alias_parameter_option aliases) r, Ok tt).
Proof.
  revert r. induction aliases as [|a l IH]; intros r; simpl.
  - by rewrite add_params_nil.
  - unfold bind, add_parameter_option, modify. rewrite IH.
    f_equal. unfold add_params. simpl. by rewrite <- app_assoc.
Qed.

Lemma declare_option_Ok d name o r :
  definition_option d name = Ok o ->
  declare_option d name r = (add_params (declared_for o) r, Ok tt).
Proof.
  intros Ho. unfold declare_option, bind, lift_outcome, add_parameter_option, modify.
  rewrite Ho. unfold declared_for.
  destruct (opt_shortcut o) as [sc|]; [destruct (nonempty sc)|].
  - rewrite declare_aliases. f_equal.
    unfold add_params. simpl. by rewrite <- app_assoc.
  - reflexivity.
  - reflexivity.
Qed.

Lemma declare_options_Ok d options r :
  (forall k, k ∈ dict_keys options -> has_option d k = true) ->
  declare_options d options r = (add_params (declared d options) r, Ok tt).
Proof.
  unfold declare_options, declared, supplied. revert r.
  induction options as [|[k v] options IH]; intros r Hall; simpl.
  - by rewrite add_params_nil.
  - assert (Hk : has_option d k = true).
    { apply Hall. unfold dict_keys. simpl. left. }
    assert (Hrest : forall k', k' ∈ dict_keys options -> has_option d k' = true).
    { intros k' Hk'. apply Hall. unfold dict_keys. simpl. by right. }
    destruct (truthy v); simpl.
    + apply has_option_find in Hk as [o Ho].
      unfold bind at 1. rewrite (declare_option_Ok _ _ _ _ Ho).
      rewrite IH by done. rewrite add_params_app.
      unfold declared_names at 2. by rewrite Ho.
    + unfold bind at 1. simpl. by apply IH.
Qed.

Lemma reapply_options_Ok options r :
  (forall k, k ∈ dict_keys options ->
             has_option (_definition (run_base r)) k = true) ->
  reapply_options options r
  = (with_options (reapplied options (_options (run_base r))) r, Ok tt).
Proof.
  unfold reapply_options, reapplied. revert r.
  induction options as [|[k v] options IH]; intros r Hall; simpl.
  - by destruct r as [[] ?].
  - assert (Hk : has_option (_definition (run_base r)) k = true).
    { apply Hall. unfold dict_keys. simpl. left. }
    assert (Hrest : forall k', k' ∈ dict_keys options ->
                               has_option (_definition (run_base r)) k' = true).
    { intros k' Hk'. apply Hall. unfold dict_keys. simpl. by right. }
    destruct (truthy v); simpl.
    + unfold bind at 1, set_option at 1. rewrite Hk.
      rewrite IH by done. reflexivity.
    + unfold bind at 1. simpl. by apply IH.
Qed.

(** A value set again is read back; every other option keeps the value
    the second bind left. *)
Lemma reapplied_get options start k :
  NoDup (dict_keys options) ->
  dict_get k (reapplied options start)
  = match dict_get k options with
    | Some v => if truthy v then Some v else dict_get k start
    | None => dict_get k start
    end.
Proof.
  unfold reapplied. revert start.
  induction options as [|[k0 v0] options IH]; intros start Hnd; simpl; [done|].
  unfold dict_keys in Hnd. simpl in Hnd.
  apply NoDup_cons in Hnd as [Hnotin Hnd].
  rewrite IH by done.
  destruct (String.eqb_spec k k0) as [->|Hk].
  - assert (dict_get k0 options = None) as ->.
    { destruct (dict_get k0 options) as [v|] eqn:E; [|done].
      exfalso. apply Hnotin. apply dict_get_Some_elem in E.
      apply list_elem_of_fmap. by exists (k0, v). }
    destruct (truthy v0); [apply dict_get_set_eq | done].
  - destruct (truthy v0); [|done].
    rewrite dict_get_set_ne by congruence. done.
Qed.

Lemma tolerated_suppress r :
  tolerated r = true -> suppress_CleoException r = Ok tt.
Proof. destruct r as [[]|e]; simpl; [done | by intros ->]. Qed.

Lemma not_tolerated_suppress e :
  is_CleoException e = false -> suppress_CleoException (Raise e) = Raise e.
Proof. simpl. by intros ->. Qed.

(** The first bind installs the shell's definition and keeps the tokens. *)
Lemma first_bound_definition self io :
  _definition (as_ArgvInput (first_bound' self io)) = definition self.
Proof. unfold first_bound'. by destruct (input io). Qed.

Lemma first_bound_tokens self io :
  _tokens (as_ArgvInput (first_bound' self io)) = _tokens (as_ArgvInput (input io)).
Proof. unfold first_bound'. by destruct (input io). Qed.

(** The pass-through rewrite in closed form: when both binds end
    normally or with a [CleoException], and the parser has only stored
    options of the definition, the active input becomes
    [rebuilt_input']. *)
Lemma rebind_run_Ok self io :
  tolerated (snd (Input_bind' (definition self) (input io))) = true ->
  first_argument (first_bound' self io) = Some "run" ->
  forallb (has_option (definition self))
    (dict_keys (_options (as_ArgvInput (first_bound' self io)))) = true ->
  tolerated (raised (parse_error (second_parse' self io))) = true ->
  rebind' self io = (fst (set_input (RunArgv (rebuilt_input' self io)) io), Ok tt).
Proof.
  intros H1 Hrun Hdecl H2.
  pose proof (first_bound_definition self io) as Hdef.
  assert (Hkeys : forall k,
             k ∈ dict_keys (input_options (as_ArgvInput (first_bound' self io))) ->
             has_option (definition self) k = true).
  { intros k Hk. rewrite <- Hdef. apply input_options_declared; [|done].
    by rewrite Hdef. }
  unfold rebuilt_input', second_parse' in *.
  unfold first_bound' in *.
  unfold rebind', bind, suppressing, io_input_bind, get.
  destruct (Input_bind' (definition self) (input io)) as [i1 r1] eqn:E1.
  simpl in *. rewrite (tolerated_suppress _ H1), Hrun. simpl.
  unfold build_run_input, bind, lift_outcome.
  rewrite declare_options_Ok by done.
  unfold suppressing, RunArgvInput_bind. simpl.
  rewrite (tolerated_suppress _ H2).
  rewrite reapply_options_Ok by (simpl; done).
  simpl. reflexivity.
Qed.

(** Any other first argument: the input that was bound stays in place. *)
Lemma rebind_other_Ok self io :
  tolerated (snd (Input_bind' (definition self) (input io))) = true ->
  first_argument (first_bound' self io) <> Some "run" ->
  rebind' self io = (fst (set_input (first_bound' self io) io), Ok tt).
Proof.
  intros H1 Hrun. unfold first_bound' in *.
  unfold rebind', bind, suppressing, io_input_bind, get.
  destruct (Input_bind' (definition self) (input io)) as [i1 r1] eqn:E1.
  simpl in *. rewrite (tolerated_suppress _ H1).
  destruct (first_argument i1) as [name|]; [|done].
  destruct (String.eqb_spec name "run") as [->|Hne]; [done | done].
Qed.

Lemma binds_tolerated_split self io :
  binds_tolerated argv_parse run_argv_parse self io = true ->
  tolerated (snd (Input_bind' (definition self) (input io))) = true /\
  forallb (has_option (definition self))
    (dict_keys (_options (as_ArgvInput (first_bound' self io)))) = true /\
  tolerated (raised (parse_error (second_parse' self io))) = true.
Proof.
  unfold binds_tolerated. rewrite !andb_true_iff. tauto.
Qed.

Lemma rebind_run self io :
  binds_tolerated argv_parse run_argv_parse self io = true ->
  first_argument (first_bound' self io) = Some "run" ->
  rebind' self io = (fst (set_input (RunArgv (rebuilt_input' self io)) io), Ok tt).
Proof.
  intros Hb Hrun. apply binds_tolerated_split in Hb as (H1 & H2 & H3).
  by apply rebind_run_Ok.
Qed.

(** Every declared parameter option stems from a supplied option. *)
Lemma declared_elem d options name :
  name ∈ declared d options <->
  exists k, k ∈ supplied options /\ name ∈ declared_names d k.
Proof.
  unfold declared. rewrite list_elem_of_In, in_concat.
  split.
  - intros (l & Hl & Hin). apply in_map_iff in Hl as (k & <- & Hk).
    exists k. by rewrite !list_elem_of_In.
  - intros (k & Hk & Hin). exists (declared_names d k).
    rewrite <- !list_elem_of_In. split; [|done].
    apply list_elem_of_fmap. by exists k.
Qed.

Lemma supplied_elem options k :
  k ∈ supplied options <->
  exists v, (k, v) ∈ options /\ truthy v = true.
Proof.
  unfold supplied. rewrite list_elem_of_fmap. split.
  - intros ([k' v] & -> & Hin). apply list_elem_of_In, filter_In in Hin as [Hin Ht].
    exists v. by rewrite list_elem_of_In.
  - intros (v & Hin & Ht). exists (k, v). split; [done|].
    apply list_elem_of_In, filter_In. by rewrite <- list_elem_of_In.
Qed.

Lemma long_form_declared d options name :
  NoDup (dict_keys options) ->
  (forall k, k ∈ dict_keys options -> has_option d k = true) ->
  (("--" ++ name)%string ∈ declared d options <->
   exists v, dict_get name options = Some v /\ truthy v = true).
Proof.
  intros Hnd Hall. rewrite declared_elem. split.
  - intros (k & Hk & Hin). apply supplied_elem in Hk as (v & Hv & Ht).
    assert (Hopt : has_option d k = true).
    { apply Hall. apply list_elem_of_fmap. by exists (k, v). }
    apply has_option_find in Hopt as [o Ho].
    unfold declared_names in Hin. rewrite Ho in Hin.
    unfold declared_for in Hin. apply elem_of_cons in Hin as [Heq|Hin].
    + injection Heq as Heq. cbv [String.append] in Heq. rewrite (definition_option_name _ _ _ Ho) in Heq.
      subst k. exists v. split; [by apply dict_get_elem | done].
    + exfalso.
      assert (exists a, ("--" ++ name)%string = alias_parameter_option a)
        as [a Ha].
      { destruct (opt_shortcut o) as [sc|]; [|by apply elem_of_nil in Hin].
        destruct (nonempty sc); [|by apply elem_of_nil in Hin].
        apply list_elem_of_fmap in Hin as (a & -> & _). by exists a. }
      destruct (alias_parameter_option_single_dash a) as (rest & Hrest & Hdash).
      rewrite <- Ha in Hrest. injection Hrest as <-. done.
  - intros (v & Hget & Ht). exists name. split.
    + apply supplied_elem. exists v. split; [|done].
      by apply dict_get_Some_elem.
    + assert (Hopt : has_option d name = true).
      { apply Hall. apply dict_get_Some_elem in Hget.
        apply list_elem_of_fmap. by exists (name, v). }
      apply has_option_find in Hopt as [o Ho].
      unfold declared_names. rewrite Ho. unfold declared_for.
      rewrite (definition_option_name _ _ _ Ho). left.
Qed.

(** C1 (amended form).  When the first positional argument is "run" and
    both binds are tolerated, the active input is replaced by a new
    [RunArgvInput] built from the program name followed by all the tokens
    of the original input, unchanged and in order; the tokens from "run"
    on are the tail of that stream, and whatever precedes them is kept in
    front.  The only parameter options declared on the new input are
    those of global options that the first bind bound to a truthy value,
    wherever their tokens stand.  For any other first argument the active
    input is the original one, bound. *)
Theorem rebind_keeps_all_tokens self io :
  binds_tolerated argv_parse run_argv_parse self io = true ->
  (first_argument (first_bound' self io) = Some "run" ->
   exists r leading,
     rebind' self io = (fst (set_input (RunArgv r) io), Ok tt) /\
     r = fst (build_run_input argv_parse run_argv_parse self
                (as_ArgvInput (first_bound' self io))
                (RunArgvInput_new
                   ([name_or_empty self] ++ _tokens (as_ArgvInput (input io))))) /\
     _tokens (run_base r) = _tokens (as_ArgvInput (input io)) /\
     _tokens (run_base r)
     = leading ++ trailing_tokens "run" (_tokens (as_ArgvInput (input io))) /\
     forall name, name ∈ _parameter_options r ->
       exists k v, dict_get k (input_options (as_ArgvInput (first_bound' self io)))
                   = Some v /\ truthy v = true /\
                   name ∈ declared_names (definition self) k) /\
  (first_argument (first_bound' self io) <> Some "run" ->
   rebind' self io = (fst (set_input (first_bound' self io) io), Ok tt) /\
   _tokens (as_ArgvInput (first_bound' self io))
   = _tokens (as_ArgvInput (input io))).
Proof.
  intros Hb. split.
  - intros Hrun.
    destruct (trailing_tokens_suffix "run" (_tokens (as_ArgvInput (input io))))
      as [leading Hlead].
    exists (rebuilt_input' self io), leading.
    pose proof (rebind_run self io Hb Hrun) as Hre.
    apply binds_tolerated_split in Hb as (H1 & H2 & H3).
    pose proof (first_bound_definition self io) as Hdef.
    assert (Hkeys : forall k,
               k ∈ dict_keys (input_options (as_ArgvInput (first_bound' self io))) ->
               has_option (definition self) k = true).
    { intros k Hk. rewrite <- Hdef. apply input_options_declared; [|done].
      by rewrite Hdef. }
    split; [done|]. split; [|split; [|split]].
    + unfold build_run_input, bind.
      rewrite declare_options_Ok by done.
      unfold suppressing, RunArgvInput_bind. simpl.
      unfold second_parse' in H3. rewrite first_bound_tokens in H3.
      rewrite (tolerated_suppress _ H3).
      rewrite reapply_options_Ok by (simpl; done).
      simpl. unfold rebuilt_input', second_parse', with_options. simpl.
      by rewrite first_bound_tokens.
    + simpl. apply first_bound_tokens.
    + simpl. rewrite first_bound_tokens. exact Hlead.
    + simpl. intros name Hin. apply declared_elem in Hin as (k & Hk & Hin).
      apply supplied_elem in Hk as (v & Hv & Ht).
      exists k, v. split; [|done].
      apply dict_get_elem; [apply input_options_NoDup | done].
  - intros Hrun. apply binds_tolerated_split in Hb as (H1 & _).
    split; [by apply rebind_other_Ok | apply first_bound_tokens].
Qed.

(** C3.  In the pass-through rewrite the parameter options declared on
    the rebuilt input are exactly those of the global options whose bound
    value is truthy, in the order of the options; such an option has its
    long form declared and its value set again after the second bind,
    while an option bound to a falsy value has no long form declared and
    keeps whatever the second bind stored for it. *)
Theorem rebind_redeclares_supplied_options self io :
  binds_tolerated argv_parse run_argv_parse self io = true ->
  first_argument (first_bound' self io) = Some "run" ->
  exists r,
    rebind' self io = (fst (set_input (RunArgv r) io), Ok tt) /\
    _parameter_options r
    = concat (map (declared_names (definition self))
                (supplied (input_options (as_ArgvInput (first_bound' self io))))) /\
    forall name value,
      dict_get name (input_options (as_ArgvInput (first_bound' self io)))
      = Some value ->
      if truthy value then
        ("--" ++ name)%string ∈ _parameter_options r /\
        dict_get name (_options (run_base r)) = Some value
      else
        ("--" ++ name)%string ∉ _parameter_options r /\
        dict_get name (_options (run_base r))
        = dict_get name (parsed_options (second_parse' self io)).
Proof.
  intros Hb Hrun. exists (rebuilt_input' self io).
  split; [by apply rebind_run|]. split; [reflexivity|].
  apply binds_tolerated_split in Hb as (H1 & H2 & H3).
  pose proof (first_bound_definition self io) as Hdef.
  assert (Hkeys : forall k,
             k ∈ dict_keys (input_options (as_ArgvInput (first_bound' self io))) ->
             has_option (definition self) k = true).
  { intros k Hk. rewrite <- Hdef. apply input_options_declared; [|done].
    by rewrite Hdef. }
  pose proof (input_options_NoDup (as_ArgvInput (first_bound' self io))) as Hnd.
  intros name value Hget. simpl.
  rewrite (reapplied_get _ _ _ Hnd), Hget.
  destruct (truthy value) eqn:Ht.
  - split; [|done]. apply long_form_declared; [done | done |]. by exists value.
  - split; [|done]. intros Hin.
    apply long_form_declared in Hin as (v & Hv & Htv); [|done|done].
    congruence.
Qed.

(** C4.  For every global option bound to a truthy value that has a
    shortcut string, each alias of the shortcut is declared on the
    rebuilt input, prefixed with a single dash.  The aliases are the
    non-empty pieces of the shortcut, stripped of its leading dashes, cut
    at each bar together with a dash that directly follows it.  The
    packed shortcut "-v|-vv|-vvv" gives the aliases v, vv, vvv, and a
    shortcut that is empty after stripping gives none. *)
Theorem rebind_declares_shortcut_aliases self io :
  binds_tolerated argv_parse run_argv_parse self io = true ->
  first_argument (first_bound' self io) = Some "run" ->
  exists r,
    rebind' self io = (fst (set_input (RunArgv r) io), Ok tt) /\
    (forall name value o shortcut alias,
        dict_get name (input_options (as_ArgvInput (first_bound' self io)))
        = Some value ->
        truthy value = true ->
        definition_option (definition self) name = Ok o ->
        opt_shortcut o = Some shortcut ->
        alias ∈ shortcut_aliases shortcut ->
        alias_parameter_option alias ∈ _parameter_options r /\
        exists rest, alias_parameter_option alias = String "-" rest /\
                     starts_with_dash rest = false) /\
    (forall shortcut,
        shortcut_aliases shortcut
        = List.filter nonempty (re_split_bar_dash (lstrip_dash shortcut)) /\
        Forall (fun f => has_bar f = false)
          (re_split_bar_dash (lstrip_dash shortcut)) /\
        String.concat "|" (re_split_bar_dash (lstrip_dash shortcut))
        = drop_dash_after_bar (lstrip_dash shortcut)) /\
    shortcut_aliases "-v|-vv|-vvv" = ["v"; "vv"; "vvv"] /\
    map alias_parameter_option (shortcut_aliases "-v|-vv|-vvv")
    = ["-v"; "-vv"; "-vvv"] /\
    (forall o shortcut,
        opt_shortcut o = Some shortcut ->
        lstrip_dash shortcut = "" ->
        shortcut_aliases shortcut = [] /\
        declared_for o = [("--" ++ opt_name o)%string]).
Proof.
  intros Hb Hrun. exists (rebuilt_input' self io).
  split; [by apply rebind_run|].
  split; [|split; [|split; [reflexivity|split; [reflexivity|]]]].
  - intros name value o shortcut alias Hget Ht Ho Hsc Hal.
    split; [|apply alias_parameter_option_single_dash].
    simpl. apply declared_elem. exists name. split.
    + apply supplied_elem. exists value. split; [|done].
      by apply dict_get_Some_elem.
    + unfold declared_names. rewrite Ho. unfold declared_for. rewrite Hsc.
      right. destruct (nonempty shortcut) eqn:Hne.
      * apply list_elem_of_fmap. by exists alias.
      * exfalso. unfold nonempty in Hne. apply negb_false_iff in Hne.
        apply String.eqb_eq in Hne as ->. by apply elem_of_nil in Hal.
  - intros shortcut. split; [|apply re_split_bar_dash_spec].
    unfold shortcut_aliases.
    induction (re_split_bar_dash (lstrip_dash shortcut)) as [|f fs IH];
      [reflexivity|].
    rewrite filter_cons. simpl. rewrite IH.
    destruct (nonempty f) eqn:E.
    + by rewrite decide_True.
    + by rewrite decide_False by congruence.
  - intros o shortcut Hsc Hstrip.
    rewrite (shortcut_aliases_all_dashes _ Hstrip). split; [reflexivity|].
    unfold declared_for. rewrite Hsc.
    rewrite (shortcut_aliases_all_dashes _ Hstrip). by destruct (nonempty shortcut).
Qed.

End RebinderFacts.

(** [poetry --verbose run foo --bar baz] is rewritten, [poetry -q install]
    is not. *)
Lemma rebind_keeps_all_tokens_witness :
  (exists r leading,
      ToyCleo.rebind ToyCleo.app
        (ToyCleo.io_of ["poetry"; "--verbose"; "run"; "foo"; "--bar"; "baz"])
      = (fst (set_input (RunArgv r)
                (ToyCleo.io_of ["poetry"; "--verbose"; "run"; "foo"; "--bar"; "baz"])),
         Ok tt) /\
      _tokens (run_base r) = leading ++ ["run"; "foo"; "--bar"; "baz"]) /\
  _tokens (as_ArgvInput
             (input (fst (ToyCleo.rebind ToyCleo.app
                            (ToyCleo.io_of ["poetry"; "-q"; "install"])))))
  = ["-q"; "install"].
Proof.
  split.
  - destruct (rebind_keeps_all_tokens ToyCleo.argv_parse ToyCleo.run_argv_parse
                ToyCleo.first_argument ToyCleo.app
                (ToyCleo.io_of ["poetry"; "--verbose"; "run"; "foo"; "--bar"; "baz"])
                eq_refl) as [Hrun _].
    destruct (Hrun eq_refl) as (r & leading & H1 & _ & _ & H4 & _).
    exists r, leading. split; [exact H1 | exact H4].
  - destruct (rebind_keeps_all_tokens ToyCleo.argv_parse ToyCleo.run_argv_parse
                ToyCleo.first_argument ToyCleo.app
                (ToyCleo.io_of ["poetry"; "-q"; "install"])
                eq_refl) as [_ Hother].
    destruct Hother as [H1 H2]; [discriminate|].
    unfold ToyCleo.rebind. rewrite H1. exact H2.
Defined.

(** C1 as stated fails in both of its parts.  On
    [poetry --verbose run foo] the rebuilt stream is the program name
    followed by [--verbose run foo], not by the tokens from "run" on.
    On [poetry run --verbose foo] the stream is as claimed, but the first
    bind has bound [verbose] from the token that follows "run", so lines
    206-221 declare [--verbose] as a parameter option of the rebuilt input
    and set [verbose] on it: a trailing token is read as a global
    option. *)
Lemma rebind_tokens_not_only_trailing :
  ~ (ToyCleo.first_argument
       (first_bound ToyCleo.argv_parse ToyCleo.run_argv_parse ToyCleo.app
          (ToyCleo.io_of ["poetry"; "--verbose"; "run"; "foo"])) = Some "run" ->
     exists r,
       input (fst (ToyCleo.rebind ToyCleo.app
                     (ToyCleo.io_of ["poetry"; "--verbose"; "run"; "foo"])))
       = RunArgv r /\
       [name_or_empty ToyCleo.app] ++ _tokens (run_base r)
       = [name_or_empty ToyCleo.app]
         ++ trailing_tokens "run"
              (_tokens (as_ArgvInput
                          (input (ToyCleo.io_of ["poetry"; "--verbose"; "run"; "foo"]))))) /\
  ~ (ToyCleo.first_argument
       (first_bound ToyCleo.argv_parse ToyCleo.run_argv_parse ToyCleo.app
          (ToyCleo.io_of ["poetry"; "run"; "--verbose"; "foo"])) = Some "run" ->
     exists r,
       input (fst (ToyCleo.rebind ToyCleo.app
                     (ToyCleo.io_of ["poetry"; "run"; "--verbose"; "foo"])))
       = RunArgv r /\
       [name_or_empty ToyCleo.app] ++ _tokens (run_base r)
       = [name_or_empty ToyCleo.app]
         ++ trailing_tokens "run"
              (_tokens (as_ArgvInput
                          (input (ToyCleo.io_of ["poetry"; "run"; "--verbose"; "foo"])))) /\
       forall t,
         t ∈ trailing_tokens "run"
               (_tokens (as_ArgvInput
                           (input (ToyCleo.io_of ["poetry"; "run"; "--verbose"; "foo"])))) ->
         t ∉ _parameter_options r) /\
  exists r,
    input (fst (ToyCleo.rebind ToyCleo.app
                  (ToyCleo.io_of ["poetry"; "run"; "--verbose"; "foo"])))
    = RunArgv r /\
    trailing_tokens "run"
      (_tokens (as_ArgvInput
                  (input (ToyCleo.io_of ["poetry"; "run"; "--verbose"; "foo"]))))
    = ["run"; "--verbose"; "foo"] /\
    _tokens (run_base r) = ["run"; "--verbose"; "foo"] /\
    _parameter_options r = ["--verbose"; "-v"; "-vv"; "-vvv"] /\
    dict_get "verbose" (_options (run_base r)) = Some (PyBool true).
Proof.
  split; [|split].
  - intros H. destruct (H eq_refl) as (r & Hr & Ht).
    vm_compute in Hr. injection Hr as <-. vm_compute in Ht. discriminate.
  - intros H. destruct (H eq_refl) as (r & Hr & _ & Hn).
    vm_compute in Hr. injection Hr as <-.
    apply (Hn "--verbose"); [right; left | left].
  - eexists. split; [vm_compute; reflexivity|]. repeat split.
Qed.

(** On [poetry --verbose run foo] only the verbose option is declared and
    set; [quiet] is not. *)
Lemma rebind_redeclares_supplied_options_witness :
  exists r,
    ToyCleo.rebind ToyCleo.app (ToyCleo.io_of ["poetry"; "--verbose"; "run"; "foo"])
    = (fst (set_input (RunArgv r)
              (ToyCleo.io_of ["poetry"; "--verbose"; "run"; "foo"])), Ok tt) /\
    _parameter_options r = ["--verbose"; "-v"; "-vv"; "-vvv"] /\
    dict_get "verbose" (_options (run_base r)) = Some (PyBool true) /\
    "--quiet" ∉ _parameter_options r.
Proof.
  destruct (rebind_redeclares_supplied_options
              ToyCleo.argv_parse ToyCleo.run_argv_parse ToyCleo.first_argument
              ToyCleo.app (ToyCleo.io_of ["poetry"; "--verbose"; "run"; "foo"])
              eq_refl eq_refl) as (r & H1 & H2 & H3).
  exists r. split; [exact H1|]. split; [exact H2|]. split.
  - exact (proj2 (H3 "verbose" (PyBool true) eq_refl)).
  - exact (proj1 (H3 "quiet" (PyBool false) eq_refl)).
Defined.

(** On [poetry -vv run foo] the three aliases of the verbose option are
    declared. *)
Lemma rebind_declares_shortcut_aliases_witness :
  exists r,
    ToyCleo.rebind ToyCleo.app (ToyCleo.io_of ["poetry"; "-vv"; "run"; "foo"])
    = (fst (set_input (RunArgv r)
              (ToyCleo.io_of ["poetry"; "-vv"; "run"; "foo"])), Ok tt) /\
    "-vvv" ∈ _parameter_options r.
Proof.
  destruct (rebind_declares_shortcut_aliases
              ToyCleo.argv_parse ToyCleo.run_argv_parse ToyCleo.first_argument
              ToyCleo.app (ToyCleo.io_of ["poetry"; "-vv"; "run"; "foo"])
              eq_refl eq_refl) as (r & H1 & H2 & _).
  exists r. split; [exact H1|].
  refine (proj1 (H2 "verbose" (PyBool true)
                   {| opt_name := "verbose"; opt_shortcut := Some "-v|-vv|-vvv";
                      opt_default := PyBool false |}
                   "-v|-vv|-vvv" "vvv" eq_refl eq_refl eq_refl eq_refl _)).
  vm_compute. do 2 right. left.
Defined.

(** ** The Poetry object *)

Lemma assigning_lookup f self (h : gmap ref Poetry) p :
  fst (assigning f self h) !! p
  = if decide (p = self) then f <$> h !! p else h !! p.
Proof.
  unfold assigning. simpl. destruct (decide (p = self)) as [->|Hne].
  - by rewrite lookup_alter_eq.
  - by rewrite lookup_alter_ne.
Qed.

(** C10.  Each setter returns the reference it was called on, changes no
    other object, and replaces the object behind the reference by one
    that differs in the named field only. *)
Theorem setters_assign_one_field (h : gmap ref Poetry) (self : ref)
    (locker : BaseLocker) (pool : Pool) (config : Config)
    (plugin_manager : PluginManager) :
  (snd (set_locker self locker h) = self /\
   snd (set_pool self pool h) = self /\
   snd (set_config self config h) = self /\
   snd (set_plugin_manager self plugin_manager h) = self) /\
  (forall p,
      fst (set_locker self locker h) !! p
      = (if decide (p = self) then with_locker locker <$> h !! p else h !! p) /\
      fst (set_pool self pool h) !! p
      = (if decide (p = self) then with_pool pool <$> h !! p else h !! p) /\
      fst (set_config self config h) !! p
      = (if decide (p = self) then with_config config <$> h !! p else h !! p) /\
      fst (set_plugin_manager self plugin_manager h) !! p
      = (if decide (p = self)
         then with_plugin_manager (Some plugin_manager) <$> h !! p else h !! p)) /\
  (forall o,
      with_locker locker o
      = {| _file := _file o; _local_config := _local_config o;
           _package := _package o; _locker := locker; _config := _config o;
           _pool := _pool o; _plugin_manager := _plugin_manager o |} /\
      with_pool pool o
      = {| _file := _file o; _local_config := _local_config o;
           _package := _package o; _locker := _locker o; _config := _config o;
           _pool := pool; _plugin_manager := _plugin_manager o |} /\
      with_config config o
      = {| _file := _file o; _local_config := _local_config o;
           _package := _package o; _locker := _locker o; _config := config;
           _pool := _pool o; _plugin_manager := _plugin_manager o |} /\
      with_plugin_manager (Some plugin_manager) o
      = {| _file := _file o; _local_config := _local_config o;
           _package := _package o; _locker := _locker o; _config := _config o;
           _pool := _pool o; _plugin_manager := Some plugin_manager |}).
Proof.
  split; [by repeat split|]. split.
  - intros p. unfold set_locker, set_pool, set_config, set_plugin_manager.
    by rewrite !assigning_lookup.
  - intros o. by repeat split.
Qed.

(** ** The pre-execution listeners *)

Ltac unfold_monad :=
  unfold call, emit;
  unfold bind, ret, raise, get, modify, lift_outcome,
    with_self, with_heap, with_logging.

Ltac unfold_monad_in H :=
  unfold call, emit in H;
  unfold bind, ret, raise, get, modify, lift_outcome,
    with_self, with_heap, with_logging in H.

Section ListenerFacts.

Variable create_poetry : option IO -> PyVal -> outcome Poetry.
Variable create_venv : Poetry -> IO -> outcome Env.
Variable config_get : Config -> string -> PyVal -> PyVal.

Notation configure_env' := (configure_env create_poetry create_venv).
Notation configure_installer' := (configure_installer create_poetry config_get).
Notation pipeline' := (pipeline create_poetry create_venv config_get).
Notation pipeline_runs' := (pipeline_runs create_poetry create_venv config_get).

(** The registry after the loop of [register_command_loggers]. *)
Lemma configure_loggers_run handler io names w :
  for_each names (configure_logger handler io) w
  = (with_logging
       (fun registry =>
          fold_left (fun reg name =>
                       <[name := setLevel (logger_level io name)
                                   (set_handlers [handler] (getLogger name reg))]> reg)
            names registry) w, Ok tt).
Proof.
  revert w. induction names as [|name names IH]; intros w; simpl.
  - by destruct w.
  - unfold bind, configure_logger at 1, modify. rewrite IH. by destruct w.
Qed.

Lemma configured_loggers_lookup handler io names (registry : gmap string Logger) name :
  fold_left (fun reg name =>
               <[name := setLevel (logger_level io name)
                           (set_handlers [handler] (getLogger name reg))]> reg)
    names registry !! name
  = if decide (name ∈ names)
    then Some {| handlers := [handler]; level := logger_level io name |}
    else registry !! name.
Proof.
  revert registry. induction names as [|n names IH]; intros registry;
    cbn [fold_left].
  - destruct (decide (name ∈ [])) as [Hin|_]; [|done].
    by apply elem_of_nil in Hin.
  - rewrite IH. destruct (decide (name ∈ names)) as [Hin|Hnotin].
    + destruct (decide (name ∈ n :: names)) as [_|Hno]; [done|].
      exfalso. apply Hno. by right.
    + destruct (decide (name = n)) as [->|Hne].
      * destruct (decide (n ∈ n :: names)) as [_|Hno].
        -- by rewrite lookup_insert_eq.
        -- exfalso. apply Hno. left.
      * destruct (decide (name ∈ n :: names)) as [Hin|_].
        -- apply elem_of_cons in Hin as [?|?]; done.
        -- by rewrite lookup_insert_ne.
Qed.

(** The logger listener does not raise, returns the command as it got it
    and touches nothing but the logger registry. *)
Lemma register_command_loggers_frame command io w :
  exists w', register_command_loggers command io w = (w', Ok command) /\
             self w' = self w /\ heap w' = heap w /\ trace w' = trace w.
Proof.
  unfold register_command_loggers. destruct (is_Command command); cbn [negb].
  - unfold bind. rewrite configure_loggers_run. eexists. by split.
  - eexists. by split.
Qed.

(** C5.  A listener returns at once, leaving the command and the rest of
    the process as they are, when the command is not an instance of the
    class the listener is for; the whole pipeline' does so on a command
    that is an instance of none of the three. *)
Theorem listeners_skip_foreign_commands command io w :
  (is_Command command = false ->
   register_command_loggers command io w = (w, Ok command)) /\
  (is_EnvCommand command = false ->
   configure_env' command io w = (w, Ok command)) /\
  (is_InstallerCommand command = false ->
   configure_installer' command io w = (w, Ok command)) /\
  (is_Command command = false -> is_EnvCommand command = false ->
   is_InstallerCommand command = false ->
   pipeline' command io w = (w, Ok command)).
Proof.
  assert (H1 : is_Command command = false ->
               register_command_loggers command io w = (w, Ok command)).
  { intros H. unfold register_command_loggers. by rewrite H. }
  assert (H2 : is_EnvCommand command = false ->
               configure_env' command io w = (w, Ok command)).
  { intros H. unfold configure_env. by rewrite H. }
  assert (H3 : is_InstallerCommand command = false ->
               configure_installer' command io w = (w, Ok command)).
  { intros H. unfold configure_installer. by rewrite H. }
  repeat split; try done.
  intros Ha Hb Hc. unfold pipeline, COMMAND_listeners. simpl.
  unfold bind. by rewrite (H1 Ha), (H2 Hb), (H3 Hc).
Qed.

(** C7.  For a command that is a [Command], the listener leaves every
    base channel and every channel the command declares with the single
    handler bound to the output, and with the level the verbosity asks
    for: DEBUG when debug, else INFO when verbose or very verbose, else
    WARNING, or INFO for the channels of the builders family; the other
    channels are untouched. *)
Theorem register_command_loggers_levels command io w :
  is_Command command = true ->
  exists w',
    register_command_loggers command io w = (w', Ok command) /\
    (forall name,
        name ∈ base_loggers ++ loggers command ->
        exists lv,
          logging w' !! name
          = Some {| handlers := [ {| handler_io := io;
                                     handler_formatter := Some IOFormatter |} ];
                    level := lv |} /\
          (is_debug io = true -> lv = DEBUG) /\
          (is_debug io = false -> is_very_verbose io || is_verbose io = true ->
           lv = INFO) /\
          (is_debug io = false -> is_very_verbose io = false ->
           is_verbose io = false ->
           lv = if startswith "poetry.core.masonry.builders" name
                then INFO else WARNING)) /\
    (forall name,
        name ∈ [ "poetry.packages.locker"; "poetry.packages.package";
                 "poetry.utils.password_manager" ] ->
        name ∈ base_loggers ++ loggers command) /\
    (forall name,
        name ∉ base_loggers ++ loggers command ->
        logging w' !! name = logging w !! name).
Proof.
  intros Hc. unfold register_command_loggers. rewrite Hc. cbn [negb].
  unfold bind. rewrite configure_loggers_run. eexists. split; [reflexivity|].
  split; [|split].
  - intros name Hin. exists (logger_level io name). split.
    + unfold with_logging. cbn [logging].
      rewrite configured_loggers_lookup. by rewrite decide_True.
    + unfold logger_level. split; [by intros ->|]. split.
      * by intros -> ->.
      * by intros -> -> ->.
  - intros name Hin. apply elem_of_app. by left.
  - intros name Hnotin. unfold with_logging. cbn [logging].
    rewrite configured_loggers_lookup. by rewrite decide_False.
Qed.

Lemma count_events_app kind t1 t2 :
  count_events kind (t1 ++ t2) = count_events kind t1 + count_events kind t2.
Proof. unfold count_events. by rewrite List.filter_app, length_app. Qed.

(** A successful run of the environment listener on a command without
    environment attaches one, and asks the environment manager once. *)
Lemma configure_env_attaches command io w w' command' :
  is_EnvCommand command = true -> env command = None ->
  configure_env' command io w = (w', Ok command') ->
  (exists e, command' = set_env e command) /\
  count_events is_CreateVenv (trace w')
  = count_events is_CreateVenv (trace w) + 1.
Proof.
  intros Hc He. unfold configure_env, command_poetry, poetry, deref.
  rewrite Hc, He. cbn [negb]. unfold_monad. simpl.
  repeat (case_match; simpl in *; simplify_eq); intros; simplify_eq;
    (split; [eauto|]); simpl;
    rewrite ?count_events_app; unfold count_events; simpl; lia.
Qed.

(** A successful run of the installer listener on a command without
    installer attaches one, and does not ask for an environment. *)
Lemma configure_installer_attaches command io w w' command' :
  is_InstallerCommand command = true -> installer command = None ->
  configure_installer' command io w = (w', Ok command') ->
  (exists i, command' = set_installer i command) /\
  count_events is_CreateVenv (trace w') = count_events is_CreateVenv (trace w).
Proof.
  intros Hc Hi.
  unfold configure_installer, _configure_installer, command_poetry,
    poetry, deref.
  rewrite Hc, Hi. cbn [negb]. unfold_monad. simpl.
  repeat (case_match; simpl in *; simplify_eq); intros; simplify_eq;
    (split; [eauto|]); simpl;
    rewrite ?count_events_app; unfold count_events; simpl; lia.
Qed.

Lemma pipeline_unfold command io w :
  pipeline' command io w
  = match register_command_loggers command io w with
    | (wa, Ok ca) =>
        match configure_env' ca io wa with
        | (wb, Ok cb) => configure_installer' cb io wb
        | (wb, Raise e) => (wb, Raise e)
        end
    | (wa, Raise e) => (wa, Raise e)
    end.
Proof.
  unfold pipeline, COMMAND_listeners. cbn [dispatch]. unfold bind, ret.
  destruct (register_command_loggers command io w) as [wa [ca|e]]; [|done].
  destruct (configure_env' ca io wa) as [wb [cb|e]]; [|done].
  by destruct (configure_installer' cb io wb) as [wc [cc|e]].
Qed.

(** Once both are attached, a dispatch leaves the command and the trace
    as they are. *)
Lemma pipeline_stable command io w :
  is_Some (env command) -> is_Some (installer command) ->
  exists w', pipeline' command io w = (w', Ok command) /\ trace w' = trace w.
Proof.
  intros [e He] [i Hi]. rewrite pipeline_unfold.
  destruct (register_command_loggers_frame command io w) as (wa & -> & _ & _ & Ht).
  exists wa. split; [|done].
  assert (configure_env' command io wa = (wa, Ok command)) as ->.
  { unfold configure_env. rewrite He.
    by destruct (is_EnvCommand command). }
  unfold configure_installer. rewrite Hi.
  by destruct (is_InstallerCommand command).
Qed.

(** C6.  A second run of the environment listener (of the installer
    listener) on a command that has an environment (an installer) is a
    no-op.  Hence, when the first dispatch on a command with both
    capabilities succeeds, any number of dispatches leaves the command
    with the environment and the installer the first one attached, and
    the environment manager has been asked exactly once. *)
Theorem listeners_attach_once command io w :
  (is_Some (env command) -> configure_env' command io w = (w, Ok command)) /\
  (is_Some (installer command) ->
   configure_installer' command io w = (w, Ok command)) /\
  (forall w1 command1 n,
      is_EnvCommand command = true -> is_InstallerCommand command = true ->
      env command = None -> installer command = None ->
      pipeline' command io w = (w1, Ok command1) ->
      exists wn,
        pipeline_runs' (S n) command io w = (wn, Ok command1) /\
        is_Some (env command1) /\ is_Some (installer command1) /\
        count_events is_CreateVenv (trace wn)
        = count_events is_CreateVenv (trace w) + 1).
Proof.
  split; [|split].
  - intros [e He]. unfold configure_env. rewrite He.
    by destruct (is_EnvCommand command).
  - intros [i Hi]. unfold configure_installer. rewrite Hi.
    by destruct (is_InstallerCommand command).
  - intros w1 command1 n Hce Hci He Hi Hp.
    assert (Hfirst : is_Some (env command1) /\ is_Some (installer command1) /\
              count_events is_CreateVenv (trace w1)
              = count_events is_CreateVenv (trace w) + 1).
    { rewrite pipeline_unfold in Hp.
      destruct (register_command_loggers_frame command io w)
        as (wa & Hreg & _ & _ & Hta).
      rewrite Hreg in Hp.
      destruct (configure_env' command io wa) as [wb [cb|e]] eqn:Henv; [|done].
      destruct (configure_env_attaches _ _ _ _ _ Hce He Henv) as [[e ->] Hcount].
      destruct (configure_installer_attaches (set_env e command) _ _ _ _ Hci Hi Hp)
        as [[i ->] Hcount'].
      split; [by eexists|]. split; [by eexists|].
      rewrite Hcount', Hcount, Hta. done. }
    destruct Hfirst as (Hse & Hsi & Hcount).
    cbn [pipeline_runs]. unfold bind at 1. rewrite Hp.
    clear Hp. rewrite <- Hcount. clear Hcount.
    revert w1. induction n as [|n IH]; intros w1.
    + exists w1. by split.
    + cbn [pipeline_runs]. unfold bind at 1.
      destruct (pipeline_stable command1 io w1 Hse Hsi) as (w2 & -> & Ht).
      destruct (IH w2) as (wn & Hn & _ & _ & Hc).
      exists wn. rewrite Hn. repeat split; try done. by rewrite Hc, Ht.
Qed.

End ListenerFacts.

Lemma listeners_skip_foreign_commands_witness :
  register_command_loggers ToyShell.list_command
    (ToyCleo.io_of ["poetry"; "list"]) ToyShell.initial
  = (ToyShell.initial, Ok ToyShell.list_command) /\
  configure_env ToyShell.create_poetry ToyShell.create_venv ToyShell.list_command
    (ToyCleo.io_of ["poetry"; "list"]) ToyShell.initial
  = (ToyShell.initial, Ok ToyShell.list_command) /\
  configure_installer ToyShell.create_poetry ToyShell.config_get
    ToyShell.list_command (ToyCleo.io_of ["poetry"; "list"]) ToyShell.initial
  = (ToyShell.initial, Ok ToyShell.list_command) /\
  pipeline ToyShell.create_poetry ToyShell.create_venv ToyShell.config_get
    ToyShell.list_command (ToyCleo.io_of ["poetry"; "list"]) ToyShell.initial
  = (ToyShell.initial, Ok ToyShell.list_command).
Proof.
  destruct (listeners_skip_foreign_commands
              ToyShell.create_poetry ToyShell.create_venv ToyShell.config_get
              ToyShell.list_command (ToyCleo.io_of ["poetry"; "list"])
              ToyShell.initial) as (H1 & H2 & H3 & H4).
  split; [exact (H1 eq_refl)|]. split; [exact (H2 eq_refl)|].
  split; [exact (H3 eq_refl)|]. exact (H4 eq_refl eq_refl eq_refl).
Defined.

(** Three dispatches on the [install] command: one environment, asked for
    once. *)
Lemma listeners_attach_once_witness :
  exists wn command1,
    pipeline_runs ToyShell.create_poetry ToyShell.create_venv ToyShell.config_get
      3 ToyShell.install_command (ToyCleo.io_of ["poetry"; "install"])
      ToyShell.initial
    = (wn, Ok command1) /\
    env command1 = Some ToyShell.the_env /\
    count_events is_CreateVenv (trace wn) = 1.
Proof.
  destruct (pipeline ToyShell.create_poetry ToyShell.create_venv
              ToyShell.config_get ToyShell.install_command
              (ToyCleo.io_of ["poetry"; "install"]) ToyShell.initial)
    as [w1 [command1|e]] eqn:Hp.
  - destruct (listeners_attach_once
                ToyShell.create_poetry ToyShell.create_venv ToyShell.config_get
                ToyShell.install_command (ToyCleo.io_of ["poetry"; "install"])
                ToyShell.initial) as (_ & _ & H).
    destruct (H w1 command1 2 eq_refl eq_refl eq_refl eq_refl Hp)
      as (wn & Hn & _ & _ & Hc).
    exists wn, command1. split; [exact Hn|]. split; [|exact Hc].
    vm_compute in Hp. by injection Hp as _ <-.
  - vm_compute in Hp. discriminate.
Defined.

(** At normal verbosity the locker channel is set to WARNING. *)
Lemma register_command_loggers_levels_witness :
  exists w',
    register_command_loggers ToyShell.install_command
      (ToyCleo.io_of ["poetry"; "install"]) ToyShell.initial
    = (w', Ok ToyShell.install_command) /\
    level <$> logging w' !! "poetry.packages.locker" = Some WARNING.
Proof.
  destruct (register_command_loggers_levels ToyShell.install_command
              (ToyCleo.io_of ["poetry"; "install"]) ToyShell.initial eq_refl)
    as (w' & H1 & H2 & _).
  exists w'. split; [exact H1|].
  destruct (H2 "poetry.packages.locker") as (lv & -> & _ & _ & Hlv).
  - left.
  - simpl. f_equal. exact (Hlv eq_refl eq_refl eq_refl).
Defined.

(** ** The cached Poetry instance *)

Section PoetryCache.

Variable create_poetry : option IO -> PyVal -> outcome Poetry.

Notation poetry' := (poetry create_poetry).

Lemma poetry_hit w p : _poetry (self w) = Some p -> poetry' w = (w, Ok p).
Proof. intros H. unfold poetry, bind, get. by rewrite H. Qed.

Lemma poetry_miss w obj :
  _poetry (self w) = None ->
  create_poetry (_io (self w)) (_disable_plugins (self w)) = Ok obj ->
  poetry' w
  = ({| self := assign_poetry (Some (fresh (dom (heap w)))) (self w);
        heap := <[fresh (dom (heap w)) := obj]> (heap w);
        logging := logging w;
        trace := trace w ++ [CreatePoetry (_io (self w)) (_disable_plugins (self w))] |},
     Ok (fresh (dom (heap w)))).
Proof.
  intros Hn Hc. unfold poetry. unfold_monad. by rewrite Hn, Hc.
Qed.

(** C9.  With a cached instance the accessor returns it and changes
    nothing; whatever a successful read returned is what the next read
    returns.  [reset_poetry] empties the cache, and the next read then
    calls the factory and returns, and caches, a reference that no
    existing Poetry object has. *)
Theorem poetry_cached_until_reset w :
  (forall p, _poetry (self w) = Some p -> poetry' w = (w, Ok p)) /\
  (forall w1 p, poetry' w = (w1, Ok p) ->
                _poetry (self w1) = Some p /\ poetry' w1 = (w1, Ok p)) /\
  (exists w0,
      reset_poetry w = (w0, Ok tt) /\
      _poetry (self w0) = None /\
      heap w0 = heap w /\ trace w0 = trace w /\
      forall obj,
        create_poetry (_io (self w)) (_disable_plugins (self w)) = Ok obj ->
        exists w1 p',
          poetry' w0 = (w1, Ok p') /\
          p' ∉ dom (heap w) /\
          heap w1 = <[p' := obj]> (heap w) /\
          _poetry (self w1) = Some p' /\
          trace w1
          = trace w ++ [CreatePoetry (_io (self w)) (_disable_plugins (self w))]).
Proof.
  split; [apply poetry_hit|]. split.
  - intros w1 p Hr.
    assert (Hc : _poetry (self w1) = Some p).
    { destruct (_poetry (self w)) as [p0|] eqn:Hp.
      - rewrite (poetry_hit _ _ Hp) in Hr. by simplify_eq.
      - destruct (create_poetry (_io (self w)) (_disable_plugins (self w)))
          as [obj|e] eqn:Hf.
        + rewrite (poetry_miss _ _ Hp Hf) in Hr. by simplify_eq.
        + unfold poetry in Hr. unfold_monad_in Hr.
          rewrite Hp, Hf in Hr. done. }
    split; [done | by apply poetry_hit].
  - eexists. split; [reflexivity|]. repeat split.
    intros obj Hf. eexists _, _. split.
    + by apply poetry_miss.
    + simpl. split; [apply is_fresh | done].
Qed.

End PoetryCache.

(** Read, read again, reset, read: the first two references agree, the
    third is new. *)
Lemma poetry_cached_until_reset_witness :
  exists w1 p w3 p',
    poetry ToyShell.create_poetry ToyShell.initial = (w1, Ok p) /\
    poetry ToyShell.create_poetry w1 = (w1, Ok p) /\
    poetry ToyShell.create_poetry
      (fst (reset_poetry w1)) = (w3, Ok p') /\
    p' <> p.
Proof.
  destruct (poetry ToyShell.create_poetry ToyShell.initial)
    as [w1 [p|e]] eqn:Hr; [|vm_compute in Hr; discriminate].
  destruct (poetry_cached_until_reset ToyShell.create_poetry ToyShell.initial)
    as (_ & Hsame & _).
  destruct (Hsame w1 p Hr) as [Hcache Hagain].
  destruct (poetry_cached_until_reset ToyShell.create_poetry w1)
    as (_ & _ & w0 & Hreset & _ & _ & _ & Hfresh).
  destruct (Hfresh ToyShell.the_poetry eq_refl) as (w3 & p' & Hnew & Hnotin & _).
  exists w1, p, w3, p'. split; [reflexivity|]. split; [exact Hagain|].
  rewrite Hreset. split; [exact Hnew|].
  intros ->. apply Hnotin. apply elem_of_dom.
  vm_compute in Hr. injection Hr as <- <-. by eexists.
Defined.

(** ** Plugins are loaded once *)

Lemma plugin_state_loaded w w' :
  plugin_state w' = plugin_state w ->
  _plugins_loaded (self w') = _plugins_loaded (self w).
Proof. intros H. exact (f_equal (fun x => fst (fst x)) H). Qed.

Lemma keeps_ret {A} (a : A) : keeps_plugin_state (ret a).
Proof. by intros w. Qed.

Lemma keeps_raise {A} e : keeps_plugin_state (@raise World A e).
Proof. by intros w. Qed.

Lemma keeps_get : keeps_plugin_state (@get World).
Proof. by intros w. Qed.

Lemma keeps_lift_outcome {A} (r : outcome A) : keeps_plugin_state (lift_outcome r).
Proof. by intros w. Qed.

Lemma keeps_bind {A B} (m : M World A) (k : A -> M World B) :
  keeps_plugin_state m -> (forall a, keeps_plugin_state (k a)) ->
  keeps_plugin_state (bind m k).
Proof.
  intros Hm Hk w. unfold bind. specialize (Hm w).
  destruct (m w) as [w' [a|e]]; simpl in *; [|done].
  by rewrite Hk.
Qed.

Lemma keeps_modify (f : World -> World) :
  (forall w, plugin_state (f w) = plugin_state w) ->
  keeps_plugin_state (modify f).
Proof. intros H w. apply H. Qed.

Lemma keeps_emit e :
  is_LoadPlugins e = false -> is_Activate e = false ->
  keeps_plugin_state (emit e).
Proof.
  intros H1 H2 w. unfold plugin_state, emit, modify. simpl.
  rewrite !count_events_app. unfold count_events at 2 4. simpl.
  rewrite H1, H2. simpl. by rewrite !Nat.add_0_r.
Qed.

Lemma keeps_for_each {A} (xs : list A) (body : A -> M World unit) :
  (forall x, keeps_plugin_state (body x)) ->
  keeps_plugin_state (for_each xs body).
Proof.
  intros H. induction xs as [|x xs IH]; simpl; [apply keeps_ret|].
  apply keeps_bind; [apply H | by intros _].
Qed.

Lemma keeps_dispatch listeners command io :
  Forall (fun l => forall c, keeps_plugin_state (l c io)) listeners ->
  keeps_plugin_state (dispatch listeners command io).
Proof.
  intros H. revert command. induction H as [|l ls Hl Hls IH]; intros command; simpl.
  - apply keeps_ret.
  - apply keeps_bind; [apply Hl | apply IH].
Qed.

Create HintDb keeps.
#[local] Hint Resolve keeps_ret keeps_raise keeps_get keeps_lift_outcome : keeps.

Ltac keeps_step :=
  first
    [ solve [auto with keeps]
    | apply keeps_bind; [|intros]
    | apply keeps_emit; reflexivity
    | apply keeps_modify; intros; reflexivity
    | apply keeps_for_each; intros
    | progress unfold call
    | case_match ].

Section PluginFacts.

Variable create_poetry : option IO -> PyVal -> outcome Poetry.
Variable create_venv : Poetry -> IO -> outcome Env.
Variable config_get : Config -> string -> PyVal -> PyVal.
Variable parameter_option : Input -> string -> PyVal.
Variable has_parameter_option : Input -> string -> bool.
Variable load_plugins : string -> outcome unit.
Variable activate : string -> outcome unit.
Variable get_command_name : IO -> string.
Variable execute : Command -> IO -> outcome Z.

Notation pipeline' := (pipeline create_poetry create_venv config_get).
Notation _load_plugins' :=
  (_load_plugins has_parameter_option load_plugins activate).
Notation base_run' :=
  (base_run create_poetry create_venv config_get get_command_name execute).
Notation _run' :=
  (_run create_poetry create_venv config_get parameter_option
     has_parameter_option load_plugins activate get_command_name execute).
Notation run_and_render' :=
  (run_and_render create_poetry create_venv config_get parameter_option
     has_parameter_option load_plugins activate get_command_name execute).
Notation runs' :=
  (runs create_poetry create_venv config_get parameter_option
     has_parameter_option load_plugins activate get_command_name execute).

Lemma keeps_poetry : keeps_plugin_state (poetry create_poetry).
Proof. unfold poetry. repeat keeps_step. Qed.

Lemma keeps_deref p : keeps_plugin_state (deref p).
Proof. unfold deref. repeat keeps_step. Qed.

Lemma keeps_register_command_loggers c io :
  keeps_plugin_state (register_command_loggers c io).
Proof.
  unfold register_command_loggers.
  destruct (is_Command c); cbn [negb]; [|apply keeps_ret].
  apply keeps_bind; [|intros; apply keeps_ret].
  apply keeps_for_each. intros name. unfold configure_logger.
  by apply keeps_modify.
Qed.

Lemma keeps_configure_env c io :
  keeps_plugin_state (configure_env create_poetry create_venv c io).
Proof.
  unfold configure_env, command_poetry.
  destruct (is_EnvCommand c); cbn [negb]; [|apply keeps_ret].
  destruct (env c); [apply keeps_ret|].
  apply keeps_bind; [apply keeps_poetry | intros p].
  apply keeps_bind; [apply keeps_deref | intros obj].
  repeat keeps_step.
Qed.

Lemma keeps_configure_installer c io :
  keeps_plugin_state (configure_installer create_poetry config_get c io).
Proof.
  unfold configure_installer, _configure_installer, command_poetry.
  destruct (is_InstallerCommand c); cbn [negb]; [|apply keeps_ret].
  destruct (installer c); [apply keeps_ret|].
  apply keeps_bind; [apply keeps_poetry | intros p].
  apply keeps_bind; [apply keeps_deref | intros obj].
  apply keeps_ret.
Qed.

Lemma keeps_pipeline c io : keeps_plugin_state (pipeline' c io).
Proof.
  unfold pipeline, COMMAND_listeners. apply keeps_dispatch.
  repeat apply List.Forall_cons; [| | |apply List.Forall_nil]; intros c'.
  - apply keeps_register_command_loggers.
  - apply keeps_configure_env.
  - apply keeps_configure_installer.
Qed.

Lemma keeps_resolve name : keeps_plugin_state (resolve name).
Proof. unfold resolve. repeat keeps_step. Qed.

Lemma keeps_base_run io : keeps_plugin_state (base_run' io).
Proof.
  unfold base_run.
  apply keeps_bind; [apply keeps_resolve | intros c].
  apply keeps_bind; [apply keeps_pipeline | intros c'].
  repeat keeps_step.
Qed.

Lemma keeps_render_error e io : keeps_plugin_state (render_error e io).
Proof. unfold render_error. repeat keeps_step. Qed.

(** With the flag set, [_load_plugins] returns at once. *)
Lemma load_plugins_again io w :
  _plugins_loaded (self w) = true -> _load_plugins' io w = (w, Ok tt).
Proof. intros H. unfold _load_plugins, bind, get. by rewrite H. Qed.

(** The first time, discovery and activation run unless the option is
    there, and the flag is set. *)
Lemma load_plugins_first io w :
  _plugins_loaded (self w) = false ->
  load_plugins plugin_group = Ok tt -> activate plugin_group = Ok tt ->
  exists w', _load_plugins' io w = (w', Ok tt) /\
    plugin_state w'
    = let n := if has_parameter_option (input io) "--no-plugins" then 0 else 1 in
      (true, count_events is_LoadPlugins (trace w) + n,
             count_events is_Activate (trace w) + n).
Proof.
  intros Hf Hl Ha. unfold _load_plugins. unfold_monad. rewrite Hf. simpl.
  destruct (has_parameter_option (input io) "--no-plugins"); simpl.
  - eexists. split; [reflexivity|]. unfold plugin_state. simpl.
    by rewrite !Nat.add_0_r.
  - rewrite Hl, Ha. eexists. split; [reflexivity|]. unfold plugin_state. simpl.
    rewrite !count_events_app. unfold count_events. simpl. f_equal; [f_equal|]; lia.
Qed.

Lemma run_plugin_state io w :
  plugin_state (fst (run_and_render' io w)) = plugin_state (fst (_run' io w)).
Proof.
  unfold run_and_render. destruct (_run' io w) as [w' [code|e]]; [done|].
  exact (keeps_render_error e io w').
Qed.

(** How one [_run] moves the plugin state. *)
Lemma run_plugin_step io w :
  plugin_state (fst (_run' io w))
  = plugin_state
      (fst (_load_plugins' io
              (with_self (assign_disable_plugins
                            (parameter_option (input io) "--no-plugins")) w))).
Proof.
  unfold _run, bind at 1, modify.
  unfold bind.
  destruct (_load_plugins' io _) as [w1 [[]|e]]; [|done].
  exact (keeps_base_run io w1).
Qed.

Lemma run_later io w :
  _plugins_loaded (self w) = true ->
  plugin_state (fst (run_and_render' io w)) = plugin_state w.
Proof.
  intros H. rewrite run_plugin_state, run_plugin_step.
  by rewrite load_plugins_again.
Qed.

Lemma runs_later ios w :
  _plugins_loaded (self w) = true ->
  plugin_state (fst (runs' ios w)) = plugin_state w.
Proof.
  revert w. induction ios as [|io ios IH]; intros w H; [done|].
  cbn [runs]. unfold bind.
  pose proof (run_later io w H) as Hstep.
  destruct (run_and_render' io w) as [w1 [code|e]]; cbn [fst] in *; [|done].
  rewrite IH; [done|]. by rewrite (plugin_state_loaded _ _ Hstep).
Qed.


End PluginFacts.



(** ** Which exceptions are suppressed *)

Section ErrorFacts.

Variable argv_parse : InputDefinition -> list string -> ParseResult.
Variable run_argv_parse :
  InputDefinition -> list string -> list string -> ParseResult.
Variable first_argument : Input -> option string.
Variable base_configure_io : M IO unit.
Variable create_poetry : option IO -> PyVal -> outcome Poetry.
Variable create_venv : Poetry -> IO -> outcome Env.
Variable config_get : Config -> string -> PyVal -> PyVal.
Variable parameter_option : Input -> string -> PyVal.
Variable has_parameter_option : Input -> string -> bool.
Variable load_plugins : string -> outcome unit.
Variable activate : string -> outcome unit.
Variable import_module : string -> outcome (dict (unit -> outcome Command)).
Variable get_command_name : IO -> string.
Variable execute : Command -> IO -> outcome Z.

Notation rebind' := (rebind argv_parse run_argv_parse first_argument).
Notation _configure_io' :=
  (_configure_io argv_parse run_argv_parse first_argument base_configure_io).
Notation run' :=
  (run argv_parse run_argv_parse first_argument base_configure_io
     create_poetry create_venv config_get parameter_option
     has_parameter_option load_plugins activate get_command_name execute).
Notation silenced_rebind :=
  (rebind (fun d tokens => silenced (argv_parse d tokens))
     (fun d tokens params => silenced (run_argv_parse d tokens params))
     first_argument).
Notation Input_bind' := (Input_bind argv_parse run_argv_parse).
Notation first_bound' := (first_bound argv_parse run_argv_parse).
Notation second_parse' := (second_parse argv_parse run_argv_parse).
Notation rebuilt_input' := (rebuilt_input argv_parse run_argv_parse).
Notation configure_env' := (configure_env create_poetry create_venv).
Notation configure_installer' := (configure_installer create_poetry config_get).
Notation pipeline' := (pipeline create_poetry create_venv config_get).
Notation _load_plugins' :=
  (_load_plugins has_parameter_option load_plugins activate).
Notation _run' :=
  (_run create_poetry create_venv config_get parameter_option
     has_parameter_option load_plugins activate get_command_name execute).
Notation run_and_render' :=
  (run_and_render create_poetry create_venv config_get parameter_option
     has_parameter_option load_plugins activate get_command_name execute).

(** The state in which [_run] calls [_load_plugins]. *)
Notation entered io w :=
  (with_self (assign_disable_plugins
                (parameter_option (input io) "--no-plugins")) w).

Lemma rebind_first_bind_raises self io e :
  is_CleoException e = false ->
  snd (Input_bind' (definition self) (input io)) = Raise e ->
  snd (rebind' self io) = Raise e.
Proof.
  intros He Hr. unfold rebind, bind, suppressing, io_input_bind.
  destruct (Input_bind' (definition self) (input io)) as [i1 r1].
  simpl in *. subst r1. by rewrite (not_tolerated_suppress _ He).
Qed.

Lemma rebind_second_bind_raises self io e :
  is_CleoException e = false ->
  tolerated (snd (Input_bind' (definition self) (input io))) = true ->
  forallb (has_option (definition self))
    (dict_keys (_options (as_ArgvInput (first_bound' self io)))) = true ->
  first_argument (first_bound' self io) = Some "run" ->
  parse_error (second_parse' self io) = Some e ->
  snd (rebind' self io) = Raise e.
Proof.
  intros He H1 Hdecl Hrun H2.
  pose proof (first_bound_definition argv_parse run_argv_parse self io) as Hdef.
  assert (Hkeys : forall k,
             k ∈ dict_keys (input_options (as_ArgvInput (first_bound' self io))) ->
             has_option (definition self) k = true).
  { intros k Hk. rewrite <- Hdef. apply input_options_declared; [|done].
    by rewrite Hdef. }
  unfold second_parse in *. unfold first_bound in *.
  unfold rebind, bind, suppressing, io_input_bind, get.
  destruct (Input_bind' (definition self) (input io)) as [i1 r1] eqn:E1.
  simpl in *. rewrite (tolerated_suppress _ H1), Hrun. simpl.
  unfold build_run_input, bind, lift_outcome.
  rewrite declare_options_Ok by done.
  unfold suppressing, RunArgvInput_bind. simpl.
  rewrite H2. simpl. by rewrite He.
Qed.

Lemma run_raises_from_plugins io w w1 e :
  _load_plugins' io (entered io w) = (w1, Raise e) ->
  _run' io w = (w1, Raise e).
Proof. intros H. unfold _run, bind, modify. by rewrite H. Qed.

Lemma run_raises_from_loader io w w1 loader e :
  _load_plugins' io (entered io w) = (w1, Ok tt) ->
  dict_get (get_command_name io) (_command_loader (self w1)) = Some loader ->
  loader tt = Raise e ->
  _run' io w = (w1, Raise e).
Proof.
  intros H Hl He. unfold _run, bind, modify. rewrite H.
  unfold base_run, resolve, bind, get, lift_outcome. by rewrite Hl, He.
Qed.

Lemma run_raises_from_pipeline io w w1 w2 c w' e :
  _load_plugins' io (entered io w) = (w1, Ok tt) ->
  resolve (get_command_name io) w1 = (w2, Ok c) ->
  pipeline' c io w2 = (w', Raise e) ->
  _run' io w = (w', Raise e).
Proof.
  intros H Hr Hp. unfold _run, bind, modify. rewrite H.
  unfold base_run, bind. by rewrite Hr, Hp.
Qed.

Lemma load_plugins_raises io w e :
  _plugins_loaded (self w) = false ->
  has_parameter_option (input io) "--no-plugins" = false ->
  load_plugins plugin_group = Raise e \/
  (load_plugins plugin_group = Ok tt /\ activate plugin_group = Raise e) ->
  snd (_load_plugins' io w) = Raise e /\
  _plugins_loaded (self (fst (_load_plugins' io w))) = false.
Proof.
  intros Hf Hn H. unfold _load_plugins. unfold_monad. rewrite Hf. simpl.
  rewrite Hn. simpl. destruct H as [->|[-> ->]]; simpl; by rewrite ?Hf.
Qed.

Lemma suppress_silenced p :
  suppress_CleoException (raised (parse_error p))
  = suppress_CleoException (raised (parse_error (silenced p))).
Proof.
  unfold silenced. cbn [parse_error].
  destruct (parse_error p) as [e|]; [|done]. simpl.
  destruct (is_CleoException e) eqn:E; simpl; by rewrite ?E.
Qed.

Lemma bound_silenced a d p : bound a d (silenced p) = bound a d p.
Proof. reflexivity. Qed.

(** The rewrite cannot tell a parser from the same parser with its
    [CleoException]s dropped. *)
Lemma rebind_silenced self io : rebind' self io = silenced_rebind self io.
Proof.
  unfold rebind, bind, suppressing, io_input_bind, get.
  assert (H1 : forall i,
             (let (i', r) := Input_bind argv_parse run_argv_parse
                               (definition self) i in
              (i', suppress_CleoException r))
             = (let (i', r) := Input_bind
                                 (fun d tokens => silenced (argv_parse d tokens))
                                 (fun d tokens params =>
                                    silenced (run_argv_parse d tokens params))
                                 (definition self) i in
                (i', suppress_CleoException r))).
  { intros [a|r]; unfold Input_bind; rewrite bound_silenced;
      by rewrite suppress_silenced. }
  pose proof (H1 (input io)) as Hio.
  destruct (Input_bind argv_parse run_argv_parse (definition self) (input io))
    as [i1 r1].
  destruct (Input_bind _ _ (definition self) (input io)) as [i2 r2].
  injection Hio as <- Hr. rewrite Hr.
  destruct (suppress_CleoException r2) as [[]|e]; [|done].
  cbn [fst snd].
  destruct (first_argument _) as [name|]; [|done].
  destruct (String.eqb name "run"); [|done].
  unfold build_run_input, bind, suppressing, RunArgvInput_bind, lift_outcome.
  match goal with
  | |- context [declare_options ?d ?o ?r0] =>
      destruct (declare_options d o r0) as [r' [[]|e]]; [|done]
  end.
  pose proof (H1 (RunArgv r')) as Hrun.
  destruct (Input_bind argv_parse run_argv_parse (definition self) (RunArgv r'))
    as [j1 s1].
  destruct (Input_bind _ _ (definition self) (RunArgv r')) as [j2 s2].
  injection Hrun as <- Hs.
  destruct j1 as [a|r'']; cbn [fst snd]; by rewrite Hs.
Qed.


End ErrorFacts.


(** * Further properties *)

(** ** Command names, modules and the registry *)

Lemma split_space_nonnil s : split_space s <> [].
Proof.
  destruct s as [|c r]; simpl; [discriminate|].
  destruct (Ascii.eqb c " "); [discriminate|].
  destruct (split_space r); discriminate.
Qed.

Lemma concat_dot_cons f fs :
  fs <> [] -> String.concat "." (f :: fs) = (f ++ "." ++ String.concat "." fs)%string.
Proof. destruct fs; [done | reflexivity]. Qed.

Lemma concat_dot_split s :
  String.concat "." (split_space s) = replace_space_by_dot s.
Proof.
  induction s as [|c r IH]; [reflexivity|]. simpl.
  destruct (Ascii.eqb c " ") eqn:E.
  - rewrite concat_dot_cons by apply split_space_nonnil. by rewrite IH.
  - pose proof (split_space_nonnil r) as Hnil. rewrite <- IH.
    destruct (split_space r) as [|w ws]; [done|]. by destruct ws.
Qed.

Lemma replace_space_by_dot_no_space s : has_space (replace_space_by_dot s) = false.
Proof.
  induction s as [|c r IH]; [reflexivity|]. simpl. rewrite IH.
  by destruct (Ascii.eqb c " ") eqn:E; [|rewrite E].
Qed.

Lemma has_space_app s t : has_space (s ++ t) = has_space s || has_space t.
Proof.
  induction s as [|c r IH]; [reflexivity|].
  change (has_space (String c (r ++ t)%string)
          = has_space (String c r) || has_space t).
  cbn [has_space]. rewrite IH. by rewrite orb_assoc.
Qed.

Lemma split_space_no_space s :
  Forall (fun w => has_space w = false) (split_space s).
Proof.
  induction s as [|c r IH]; simpl.
  - by apply List.Forall_cons.
  - destruct (Ascii.eqb c " ") eqn:E; [by apply List.Forall_cons|].
    destruct (split_space r) as [|w ws].
    { apply List.Forall_cons; [simpl; by rewrite E | apply List.Forall_nil]. }
    apply Forall_cons in IH as [Hw Hws].
    apply List.Forall_cons; [|done]. simpl. by rewrite E, Hw.
Qed.

(** Casing a character never makes it, or unmakes it, a space. *)
Lemma cased_char_space (c : ascii) (b : bool) :
  Ascii.eqb (if is_lower c || is_upper c
             then (if b then lower c else upper c) else c) " "
  = Ascii.eqb c " ".
Proof.
  destruct c as [[] [] [] [] [] [] [] []], b; vm_compute; reflexivity.
Qed.

Lemma title_from_has_space b s : has_space (title_from b s) = has_space s.
Proof.
  revert b. induction s as [|c r IH]; intros b; [reflexivity|]. simpl.
  pose proof (cased_char_space c b) as Hc.
  destruct (is_lower c || is_upper c); simpl; rewrite IH; [by rewrite Hc | done].
Qed.

Lemma concat_empty_no_space ws :
  Forall (fun w => has_space w = false) ws ->
  has_space (String.concat "" ws) = false.
Proof.
  induction 1 as [|w ws Hw Hws IH]; [reflexivity|].
  destruct ws as [|w' ws']; [done|].
  change (String.concat "" (w :: w' :: ws'))
    with (w ++ "" ++ String.concat "" (w' :: ws'))%string.
  by rewrite !has_space_app, Hw, IH.
Qed.

(** X1.  The module of a command is the package prefix followed by the
    command name with every space turned into a dot; neither that dotted
    name nor the class name looked up in the module contains a space. *)
Theorem command_module_and_class_have_no_space (name : string) :
  command_module name
  = ("poetry.console.commands." ++ replace_space_by_dot name)%string /\
  has_space (replace_space_by_dot name) = false /\
  has_space (command_class_name name) = false.
Proof.
  split; [|split].
  - unfold command_module. by rewrite concat_dot_split.
  - apply replace_space_by_dot_no_space.
  - unfold command_class_name. rewrite has_space_app.
    rewrite concat_empty_no_space; [reflexivity|].
    apply Forall_fmap. eapply Forall_impl; [apply split_space_no_space|].
    intros w Hw. simpl. unfold title. by rewrite title_from_has_space.
Qed.

Lemma dict_get_comprehension {V} (f : string -> V) (names : list string)
    (start : dict V) (k : string) :
  dict_get k (fold_left (fun acc n => dict_set n (f n) acc) names start)
  = if decide (k ∈ names) then Some (f k) else dict_get k start.
Proof.
  revert start. induction names as [|n names IH]; intros start; cbn [fold_left].
  - destruct (decide (k ∈ [])) as [H|_]; [by apply elem_of_nil in H | done].
  - rewrite IH. destruct (decide (k ∈ names)) as [Hin|Hnotin].
    + destruct (decide (k ∈ n :: names)) as [_|Hno]; [done|].
      exfalso. apply Hno. by right.
    + destruct (decide (k = n)) as [->|Hne].
      * destruct (decide (n ∈ n :: names)) as [_|Hno].
        -- apply dict_get_set_eq.
        -- exfalso. apply Hno. left.
      * destruct (decide (k ∈ n :: names)) as [Hin|_].
        -- apply elem_of_cons in Hin as [?|?]; done.
        -- by apply dict_get_set_ne.
Qed.

(** X2.  The registry built by [__init__] binds every name of [COMMANDS]
    to the loader of that very name and holds no other name.  A loader
    returns a command exactly when the module imports, holds the class
    and the constructor of the class returns that command; an exception
    of the import or of the constructor is the loader's, and a module
    without the class makes it raise [AttributeError]. *)
Theorem registry_binds_each_name_to_its_loader
    (import_module : string -> outcome (dict (unit -> outcome Command)))
    (base : InputDefinition) (name : string) :
  dict_get name (_command_loader (Application_init import_module base))
  = (if decide (name ∈ COMMANDS)
     then Some (load_command import_module name) else None) /\
  (forall c, load_command import_module name tt = Ok c <->
             exists module command_class,
               import_module (command_module name) = Ok module /\
               dict_get (command_class_name name) module = Some command_class /\
               command_class tt = Ok c) /\
  (forall e, load_command import_module name tt = Raise e <->
             import_module (command_module name) = Raise e \/
             exists module,
               import_module (command_module name) = Ok module /\
               match dict_get (command_class_name name) module with
               | Some command_class => command_class tt = Raise e
               | None => e = PyError "AttributeError" (command_class_name name)
               end).
Proof.
  split; [|split].
  - unfold Application_init. cbn [_command_loader].
    rewrite dict_get_comprehension.
    by destruct (decide (name ∈ COMMANDS)).
  - intros c. unfold load_command.
    destruct (import_module (command_module name)) as [module|e].
    + destruct (dict_get (command_class_name name) module) as [cls|] eqn:E.
      * split; [intros H; by exists module, cls|].
        intros (m & cls' & [= <-] & Hm & Hc). congruence.
      * split; [done|]. intros (m & cls' & [= <-] & Hm & _). congruence.
    + split; [done|]. by intros (m & cls' & Hm & _).
  - intros e. unfold load_command.
    destruct (import_module (command_module name)) as [module|e'].
    + destruct (dict_get (command_class_name name) module) as [cls|] eqn:E.
      * split.
        -- intros H. right. exists module. by rewrite E.
        -- intros [H|(m & [= <-] & H)]; [done|]. by rewrite E in H.
      * split.
        -- intros [= <-]. right. exists module. by rewrite E.
        -- intros [H|(m & [= <-] & H)]; [done|]. rewrite E in H. by subst e.
    + split; [intros [= ->]; by left|].
      intros [[= ->]|(m & H & _)]; done.
Qed.

(** ** What the input rewrite leaves alone *)

Lemma bind_invariant {S A B} (P : S -> Prop) (m : M S A) (k : A -> M S B) s :
  P (fst (m s)) -> (forall a s', P s' -> P (fst (k a s'))) ->
  P (fst (bind m k s)).
Proof.
  intros Hm Hk. unfold bind. destruct (m s) as [s' [a|e]]; [|done].
  by apply Hk.
Qed.

Lemma for_each_invariant {S A} (P : S -> Prop) (xs : list A)
    (body : A -> M S unit) s :
  P s -> (forall x s', P s' -> P (fst (body x s'))) ->
  P (fst (for_each xs body s)).
Proof.
  intros Hs Hbody. revert s Hs. induction xs as [|x xs IH]; intros s Hs; [done|].
  cbn [for_each]. apply bind_invariant; [by apply Hbody|].
  intros _ s' Hs'. by apply IH.
Qed.

Section RewriteFrame.

Variable argv_parse : InputDefinition -> list string -> ParseResult.
Variable run_argv_parse :
  InputDefinition -> list string -> list string -> ParseResult.
Variable first_argument : Input -> option string.

Notation rebind' := (rebind argv_parse run_argv_parse first_argument).
Notation first_bound' := (first_bound argv_parse run_argv_parse).
Notation build_run_input' := (build_run_input argv_parse run_argv_parse).

(** Nothing in lines 206-221 changes the tokens of the input under
    construction, and once bound it carries the shell's definition. *)
Lemma build_run_input_tokens self input_ r :
  _tokens (run_base (fst (build_run_input' self input_ r)))
  = _tokens (run_base r).
Proof.
  set (P := fun r' : RunArgvInput => _tokens (run_base r') = _tokens (run_base r)).
  change (P (fst (build_run_input' self input_ r))).
  unfold build_run_input. apply bind_invariant.
  - unfold declare_options. apply for_each_invariant; [done|].
    intros [k v] r1 H1. simpl. destruct (truthy v); [|done].
    unfold declare_option. apply bind_invariant.
    { unfold lift_outcome. by destruct (definition_option _ _). }
    intros o r2 H2. apply bind_invariant; [done|]. intros _ r3 H3.
    destruct (opt_shortcut o) as [sc|]; [|done].
    destruct (nonempty sc); [|done].
    apply for_each_invariant; [done|]. by intros alias r4 H4.
  - intros _ r1 H1. apply bind_invariant.
    + unfold suppressing, RunArgvInput_bind. simpl. exact H1.
    + intros _ r2 H2. unfold reapply_options.
      apply for_each_invariant; [done|].
      intros [k v] r3 H3. simpl. destruct (truthy v); [|done].
      unfold set_option. by destruct (has_option _ k).
Qed.

(** X3.  Whatever the parsers do and whether or not it raises, the
    rewrite leaves the active input with the tokens of the original
    input, and does not touch the verbosity of the io. *)
Theorem rebind_keeps_tokens_and_verbosity self io :
  _tokens (as_ArgvInput (input (fst (rebind' self io))))
  = _tokens (as_ArgvInput (input io)) /\
  is_debug (fst (rebind' self io)) = is_debug io /\
  is_very_verbose (fst (rebind' self io)) = is_very_verbose io /\
  is_verbose (fst (rebind' self io)) = is_verbose io.
Proof.
  pose proof (first_bound_tokens argv_parse run_argv_parse self io) as Ht.
  unfold first_bound in Ht.
  unfold rebind, bind, suppressing, io_input_bind, get.
  destruct (Input_bind argv_parse run_argv_parse (definition self) (input io))
    as [i1 r1] eqn:E1.
  simpl in Ht. simpl.
  destruct (suppress_CleoException r1) as [[]|e]; [|done].
  simpl. destruct (first_argument i1) as [name|]; [|done].
  destruct (String.eqb name "run"); [|done].
  unfold lift_outcome.
  pose proof (build_run_input_tokens self (as_ArgvInput i1)
                (RunArgvInput_new ([name_or_empty self] ++ _tokens (as_ArgvInput i1))))
    as Hb.
  destruct (build_run_input' self (as_ArgvInput i1) _) as [r [[]|e]]; [|done].
  simpl in *. by rewrite Hb.
Qed.

(** X4.  The active input is replaced only at the very end: when the
    rewrite raises, or when the first argument is not "run", the active
    input is the original one as the first bind left it; when it
    returns for "run", the active input is a [RunArgvInput]. *)
Theorem rebind_replaces_input_last self io :
  (forall e, snd (rebind' self io) = Raise e ->
             input (fst (rebind' self io)) = first_bound' self io) /\
  (first_argument (first_bound' self io) <> Some "run" ->
   input (fst (rebind' self io)) = first_bound' self io) /\
  (snd (rebind' self io) = Ok tt ->
   first_argument (first_bound' self io) = Some "run" ->
   exists r, input (fst (rebind' self io)) = RunArgv r).
Proof.
  unfold first_bound.
  unfold rebind, bind, suppressing, io_input_bind, get.
  destruct (Input_bind argv_parse run_argv_parse (definition self) (input io))
    as [i1 r1] eqn:E1.
  simpl.
  destruct (suppress_CleoException r1) as [[]|e1]; [|by repeat split].
  simpl. destruct (first_argument i1) as [name|]; [|by repeat split].
  destruct (String.eqb_spec name "run") as [->|Hne].
  - unfold lift_outcome.
    destruct (build_run_input' self (as_ArgvInput i1) _) as [r [[]|e]]; simpl.
    + split; [done|]. split; [done|]. intros _ _. by exists r.
    + by repeat split.
  - split; [done|]. split; [done|]. intros _ [= ?]. done.
Qed.

End RewriteFrame.

(** With a parser that stores a value for an unknown option the rewrite
    raises, and the active input is still an [ArgvInput]. *)
Lemma rebind_replaces_input_last_witness :
  snd (rebind stray_option_parse ToyCleo.run_argv_parse ToyCleo.first_argument
         ToyCleo.app (ToyCleo.io_of ["poetry"; "run"; "foo"]))
  = Raise (PyError "ValueError" "bogus") /\
  input (fst (rebind stray_option_parse ToyCleo.run_argv_parse
                ToyCleo.first_argument ToyCleo.app
                (ToyCleo.io_of ["poetry"; "run"; "foo"])))
  = first_bound stray_option_parse ToyCleo.run_argv_parse ToyCleo.app
      (ToyCleo.io_of ["poetry"; "run"; "foo"]) /\
  input (fst (ToyCleo.rebind ToyCleo.app (ToyCleo.io_of ["poetry"; "-q"; "install"])))
  = first_bound ToyCleo.argv_parse ToyCleo.run_argv_parse ToyCleo.app
      (ToyCleo.io_of ["poetry"; "-q"; "install"]) /\
  exists r,
    input (fst (ToyCleo.rebind ToyCleo.app (ToyCleo.io_of ["poetry"; "run"; "foo"])))
    = RunArgv r.
Proof.
  split; [reflexivity|]. split; [|split].
  - exact (proj1 (rebind_replaces_input_last stray_option_parse
                    ToyCleo.run_argv_parse ToyCleo.first_argument ToyCleo.app
                    (ToyCleo.io_of ["poetry"; "run"; "foo"]))
             (PyError "ValueError" "bogus") eq_refl).
  - apply (rebind_replaces_input_last ToyCleo.argv_parse ToyCleo.run_argv_parse
             ToyCleo.first_argument ToyCleo.app
             (ToyCleo.io_of ["poetry"; "-q"; "install"])).
    discriminate.
  - apply (rebind_replaces_input_last ToyCleo.argv_parse ToyCleo.run_argv_parse
             ToyCleo.first_argument ToyCleo.app
             (ToyCleo.io_of ["poetry"; "run"; "foo"])); reflexivity.
Defined.

(** ** What a dispatch and a run leave alone *)

Section Follows.

Variable R : World -> World -> Prop.
Hypothesis R_refl : forall w, R w w.
Hypothesis R_trans : forall w1 w2 w3, R w1 w2 -> R w2 w3 -> R w1 w3.

Lemma follows_ret {A} (a : A) : follows R (ret a).
Proof. intros w. apply R_refl. Qed.

Lemma follows_raise {A} e : follows R (@raise World A e).
Proof. intros w. apply R_refl. Qed.

Lemma follows_get : follows R (@get World).
Proof. intros w. apply R_refl. Qed.

Lemma follows_lift_outcome {A} (r : outcome A) : follows R (lift_outcome r).
Proof. intros w. apply R_refl. Qed.

Lemma follows_bind {A B} (m : M World A) (k : A -> M World B) :
  follows R m -> (forall a, follows R (k a)) -> follows R (bind m k).
Proof.
  intros Hm Hk w. unfold bind. specialize (Hm w).
  destruct (m w) as [w' [a|e]]; simpl in *; [|done].
  eapply R_trans; [exact Hm | apply Hk].
Qed.

Lemma follows_for_each {A} (xs : list A) (body : A -> M World unit) :
  (forall x, follows R (body x)) -> follows R (for_each xs body).
Proof.
  intros H. induction xs as [|x xs IH]; simpl; [apply follows_ret|].
  apply follows_bind; [apply H | by intros _].
Qed.

Lemma follows_dispatch listeners command io :
  Forall (fun l => forall c, follows R (l c io)) listeners ->
  follows R (dispatch listeners command io).
Proof.
  intros H. revert command. induction H as [|l ls Hl Hls IH]; intros command; simpl.
  - apply follows_ret.
  - apply follows_bind; [apply Hl | apply IH].
Qed.

End Follows.

Lemma follows_modify R (f : World -> World) :
  (forall w, R w (f w)) -> follows R (modify f).
Proof. intros H w. apply H. Qed.

Ltac follows_with Hrefl Htrans leaf :=
  repeat first
    [ apply (follows_ret _ Hrefl)
    | apply (follows_raise _ Hrefl)
    | apply (follows_get _ Hrefl)
    | apply (follows_lift_outcome _ Hrefl)
    | apply (follows_bind _ Htrans); [|intros]
    | apply (follows_for_each _ Hrefl Htrans); intros
    | apply follows_modify; intros; leaf
    | progress unfold call, emit
    | case_match ].

Lemma only_cache_changes_refl w : only_cache_changes w w.
Proof. unfold only_cache_changes. by destruct (self w). Qed.

Lemma only_cache_changes_trans w1 w2 w3 :
  only_cache_changes w1 w2 -> only_cache_changes w2 w3 ->
  only_cache_changes w1 w3.
Proof. unfold only_cache_changes. intros H1 H2. rewrite H2, H1. done. Qed.

Ltac cache_leaf :=
  unfold only_cache_changes, with_self, with_heap, with_logging; simpl;
  match goal with |- context [self ?w] => by destruct (self w) end.

Ltac cache_frame :=
  follows_with only_cache_changes_refl only_cache_changes_trans cache_leaf.

Section DispatchFrame.

Variable create_poetry : option IO -> PyVal -> outcome Poetry.
Variable create_venv : Poetry -> IO -> outcome Env.
Variable config_get : Config -> string -> PyVal -> PyVal.
Variable get_command_name : IO -> string.
Variable execute : Command -> IO -> outcome Z.

Notation poetry' := (poetry create_poetry).
Notation configure_env' := (configure_env create_poetry create_venv).
Notation configure_installer' := (configure_installer create_poetry config_get).
Notation pipeline' := (pipeline create_poetry create_venv config_get).
Notation base_run' :=
  (base_run create_poetry create_venv config_get get_command_name execute).

Lemma poetry_cache_frame : follows only_cache_changes poetry'.
Proof. unfold poetry. cache_frame. Qed.

Lemma deref_cache_frame p : follows only_cache_changes (deref p).
Proof. unfold deref. cache_frame. Qed.

Lemma register_cache_frame c io :
  follows only_cache_changes (register_command_loggers c io).
Proof.
  intros w. destruct (register_command_loggers_frame c io w) as (w' & -> & Hs & _).
  unfold only_cache_changes. simpl. rewrite Hs. by destruct (self w).
Qed.

Lemma configure_env_cache_frame c io :
  follows only_cache_changes (configure_env' c io).
Proof.
  unfold configure_env, command_poetry.
  destruct (is_EnvCommand c); cbn [negb];
    [|apply (follows_ret _ only_cache_changes_refl)].
  destruct (env c); [apply (follows_ret _ only_cache_changes_refl)|].
  apply (follows_bind _ only_cache_changes_trans); [apply poetry_cache_frame|].
  intros p.
  apply (follows_bind _ only_cache_changes_trans); [apply deref_cache_frame|].
  intros obj. cache_frame.
Qed.

Lemma configure_installer_cache_frame c io :
  follows only_cache_changes (configure_installer' c io).
Proof.
  unfold configure_installer, _configure_installer, command_poetry.
  destruct (is_InstallerCommand c); cbn [negb];
    [|apply (follows_ret _ only_cache_changes_refl)].
  destruct (installer c); [apply (follows_ret _ only_cache_changes_refl)|].
  apply (follows_bind _ only_cache_changes_trans); [apply poetry_cache_frame|].
  intros p.
  apply (follows_bind _ only_cache_changes_trans); [apply deref_cache_frame|].
  intros obj. cache_frame.
Qed.

Lemma pipeline_cache_frame c io : follows only_cache_changes (pipeline' c io).
Proof.
  unfold pipeline, COMMAND_listeners.
  apply (follows_dispatch _ only_cache_changes_refl only_cache_changes_trans).
  repeat apply List.Forall_cons; [| | |apply List.Forall_nil]; intros c'.
  - apply register_cache_frame.
  - apply configure_env_cache_frame.
  - apply configure_installer_cache_frame.
Qed.

Lemma base_run_cache_frame io : follows only_cache_changes (base_run' io).
Proof.
  unfold base_run.
  apply (follows_bind _ only_cache_changes_trans).
  { unfold resolve. cache_frame. }
  intros c. apply (follows_bind _ only_cache_changes_trans);
    [apply pipeline_cache_frame|].
  intros c'. cache_frame.
Qed.

End DispatchFrame.

Lemma same_refl {X} (proj : World -> X) w : same proj w w.
Proof. reflexivity. Qed.

Lemma same_trans {X} (proj : World -> X) w1 w2 w3 :
  same proj w1 w2 -> same proj w2 w3 -> same proj w1 w3.
Proof. unfold same. congruence. Qed.

Section RunFrame.

Variable create_poetry : option IO -> PyVal -> outcome Poetry.
Variable create_venv : Poetry -> IO -> outcome Env.
Variable config_get : Config -> string -> PyVal -> PyVal.
Variable parameter_option : Input -> string -> PyVal.
Variable has_parameter_option : Input -> string -> bool.
Variable load_plugins : string -> outcome unit.
Variable activate : string -> outcome unit.
Variable get_command_name : IO -> string.
Variable execute : Command -> IO -> outcome Z.

Notation pipeline' := (pipeline create_poetry create_venv config_get).
Notation base_run' :=
  (base_run create_poetry create_venv config_get get_command_name execute).
Notation _load_plugins' :=
  (_load_plugins has_parameter_option load_plugins activate).
Notation _run' :=
  (_run create_poetry create_venv config_get parameter_option
     has_parameter_option load_plugins activate get_command_name execute).
Notation run_and_render' :=
  (run_and_render create_poetry create_venv config_get parameter_option
     has_parameter_option load_plugins activate get_command_name execute).

(** X5.  The three listeners assign nothing on the application object
    except, through the [poetry] accessor, the cached Poetry instance:
    after a dispatch, whether it returned or raised, name, definition,
    io, plugin flags, solution providers and command loader are what
    they were. *)
Theorem dispatch_changes_only_the_cache command io w :
  self (fst (pipeline' command io w))
  = assign_poetry (_poetry (self (fst (pipeline' command io w)))) (self w).
Proof.
  apply (pipeline_cache_frame create_poetry create_venv config_get command io w).
Qed.

Lemma load_plugins_disable io w :
  _disable_plugins (self (fst (_load_plugins' io w)))
  = if _plugins_loaded (self w) then _disable_plugins (self w)
    else PyBool (has_parameter_option (input io) "--no-plugins").
Proof.
  unfold _load_plugins. unfold_monad.
  destruct (_plugins_loaded (self w)); [done|]. simpl.
  destruct (has_parameter_option (input io) "--no-plugins"); simpl; [done|].
  destruct (load_plugins plugin_group) as [[]|e]; simpl; [|done].
  by destruct (activate plugin_group) as [[]|e].
Qed.

Lemma run_unfold io w :
  _run' io w
  = match _load_plugins' io
            (with_self (assign_disable_plugins
                          (parameter_option (input io) "--no-plugins")) w) with
    | (w1, Ok _) => base_run' io w1
    | (w1, Raise e) => (w1, Raise e)
    end.
Proof.
  unfold _run, bind at 1, modify. unfold bind.
  by destruct (_load_plugins' io _) as [w1 [[]|e]].
Qed.

(** X6.  After [_run], the [_disable_plugins] attribute is the boolean
    [has_parameter_option("--no-plugins")] when this was the run that
    went through plugin loading, and the raw value
    [parameter_option("--no-plugins")] on every run after the plugins
    have been marked loaded. *)
Theorem run_sets_disable_plugins io w :
  _disable_plugins (self (fst (_run' io w)))
  = if _plugins_loaded (self w)
    then parameter_option (input io) "--no-plugins"
    else PyBool (has_parameter_option (input io) "--no-plugins").
Proof.
  rewrite run_unfold.
  pose proof (load_plugins_disable io
                (with_self (assign_disable_plugins
                              (parameter_option (input io) "--no-plugins")) w))
    as Hd.
  destruct (_load_plugins' io _) as [w1 [[]|e]]; simpl in Hd |- *; [|exact Hd].
  rewrite (base_run_cache_frame create_poetry create_venv config_get
             get_command_name execute io w1).
  exact Hd.
Qed.

Lemma load_plugins_keeps_repository io :
  follows (same (fun w => _solution_provider_repository (self w)))
    (_load_plugins' io).
Proof.
  unfold _load_plugins.
  follows_with (same_refl (fun w => _solution_provider_repository (self w)))
               (same_trans (fun w => _solution_provider_repository (self w)))
               ltac:(reflexivity).
Qed.

(** X7.  The solution provider repository is installed on the error path
    only: a run that returns normally leaves the attribute as it was,
    and a run whose [_run] raises ends with the repository that holds
    the Python requirement provider. *)
Theorem providers_loaded_only_on_error io w :
  _solution_provider_repository (self (fst (run_and_render' io w)))
  = match snd (_run' io w) with
    | Ok _ => _solution_provider_repository (self w)
    | Raise _ => Some _get_solution_provider_repository
    end.
Proof.
  unfold run_and_render.
  assert (Hrun : _solution_provider_repository (self (fst (_run' io w)))
                 = _solution_provider_repository (self w)).
  { rewrite run_unfold.
    pose proof (load_plugins_keeps_repository io
                  (with_self (assign_disable_plugins
                                (parameter_option (input io) "--no-plugins")) w))
      as Hl.
    unfold same in Hl.
    destruct (_load_plugins' io _) as [w1 [[]|e]]; simpl in Hl |- *; [|exact Hl].
    rewrite (base_run_cache_frame create_poetry create_venv config_get
               get_command_name execute io w1).
    exact Hl. }
  destruct (_run' io w) as [w' [code|e]]; [exact Hrun | reflexivity].
Qed.

End RunFrame.

(** ** The project context when the factory fails *)

Section ProjectContext.

Variable create_poetry : option IO -> PyVal -> outcome Poetry.

Notation poetry' := (poetry create_poetry).

(** X8.  When the factory raises, the accessor raises the same
    exception, caches nothing and creates no object; the next read calls
    the factory again. *)
Theorem poetry_factory_failure_is_not_cached w e :
  _poetry (self w) = None ->
  create_poetry (_io (self w)) (_disable_plugins (self w)) = Raise e ->
  snd (poetry' w) = Raise e /\
  self (fst (poetry' w)) = self w /\
  heap (fst (poetry' w)) = heap w /\
  trace (fst (poetry' w))
  = trace w ++ [CreatePoetry (_io (self w)) (_disable_plugins (self w))] /\
  trace (fst (poetry' (fst (poetry' w))))
  = trace w ++ [CreatePoetry (_io (self w)) (_disable_plugins (self w));
                CreatePoetry (_io (self w)) (_disable_plugins (self w))].
Proof.
  intros Hn Hf.
  assert (Hone : forall w0, _poetry (self w0) = None ->
            create_poetry (_io (self w0)) (_disable_plugins (self w0)) = Raise e ->
            poetry' w0
            = ({| self := self w0; heap := heap w0; logging := logging w0;
                  trace := trace w0 ++ [CreatePoetry (_io (self w0))
                                          (_disable_plugins (self w0))] |},
               Raise e)).
  { intros w0 H0 H1. unfold poetry. unfold_monad. by rewrite H0, H1. }
  rewrite (Hone w Hn Hf). cbn [fst snd self heap trace].
  repeat split.
  rewrite Hone by done. cbn [fst trace self]. by rewrite <- app_assoc.
Qed.

End ProjectContext.

Lemma poetry_factory_failure_is_not_cached_witness :
  snd (poetry failing_create_poetry ToyShell.initial)
  = Raise (PyError "RuntimeError" "Poetry could not find a pyproject.toml file") /\
  count_events is_CreatePoetry
    (trace (fst (poetry failing_create_poetry
                   (fst (poetry failing_create_poetry ToyShell.initial))))) = 2.
Proof.
  destruct (poetry_factory_failure_is_not_cached failing_create_poetry
              ToyShell.initial _ eq_refl eq_refl) as (H1 & _ & _ & _ & H5).
  split; [exact H1|]. rewrite H5. reflexivity.
Defined.

(** ** What the listeners attach *)

Section Attachments.

Variable create_poetry : option IO -> PyVal -> outcome Poetry.
Variable create_venv : Poetry -> IO -> outcome Env.
Variable config_get : Config -> string -> PyVal -> PyVal.

Notation poetry' := (poetry create_poetry).
Notation configure_env' := (configure_env create_poetry create_venv).
Notation configure_installer' := (configure_installer create_poetry config_get).
Notation pipeline' := (pipeline create_poetry create_venv config_get).

(** X10.  A successful run of the environment listener on an
    [EnvCommand] without environment attaches exactly the environment
    the manager returned for the cached project context, leaves the
    logger registry alone, and writes the "Using virtualenv" line if and
    only if that environment is a virtualenv and the io is verbose; the
    factory is asked only when nothing was cached. *)
Theorem configure_env_attaches_created_env command io w w' command' :
  is_EnvCommand command = true -> env command = None ->
  configure_env' command io w = (w', Ok command') ->
  exists p obj e,
    _poetry (self w') = Some p /\ heap w' !! p = Some obj /\
    create_venv obj io = Ok e /\
    command' = set_env e command /\
    logging w' = logging w /\
    trace w'
    = trace w
      ++ (match _poetry (self w) with
          | Some _ => []
          | None => [CreatePoetry (_io (self w)) (_disable_plugins (self w))]
          end)
      ++ [CreateVenv p]
      ++ (if env_is_venv e && is_verbose io
          then [WriteLine ("Using virtualenv: <comment>" ++ env_path e ++ "</>")]
          else []).
Proof.
  intros Hc He. unfold configure_env, command_poetry, poetry, deref.
  rewrite Hc, He. cbn [negb]. unfold_monad.
  destruct (_poetry (self w)) as [p|] eqn:Hp; simpl.
  - destruct (heap w !! p) as [obj|] eqn:Hobj; simpl; [|done].
    destruct (create_venv obj io) as [e|e'] eqn:Hv; simpl; [|done].
    destruct (env_is_venv e && is_verbose io) eqn:Hb; simpl;
      intros [= <- <-]; exists p, obj, e; simpl;
      rewrite ?Hb, ?app_nil_r, <- ?app_assoc; by repeat split.
  - destruct (create_poetry _ _) as [obj|e'] eqn:Hf; simpl; [|done].
    rewrite lookup_insert_eq. simpl.
    destruct (create_venv obj io) as [e|e''] eqn:Hv; simpl; [|done].
    destruct (env_is_venv e && is_verbose io) eqn:Hb; simpl;
      intros [= <- <-]; exists (fresh (dom (heap w))), obj, e; simpl;
      rewrite ?Hb, ?lookup_insert_eq, ?app_nil_r, <- ?app_assoc;
      by repeat split.
Qed.

Lemma configure_env_uses_cache command io w w' command' :
  is_EnvCommand command = true -> env command = None ->
  configure_env' command io w = (w', Ok command') ->
  exists p obj e,
    _poetry (self w') = Some p /\ heap w' !! p = Some obj /\
    create_venv obj io = Ok e /\ command' = set_env e command.
Proof.
  intros Hc He. unfold configure_env, command_poetry, poetry, deref.
  rewrite Hc, He. cbn [negb]. unfold_monad.
  destruct (_poetry (self w)) as [p|] eqn:Hp; simpl.
  - destruct (heap w !! p) as [obj|] eqn:Hobj; simpl; [|done].
    destruct (create_venv obj io) as [e|e'] eqn:Hv; simpl; [|done].
    destruct (env_is_venv e && is_verbose io);
      intros [= <- <-]; by exists p, obj, e.
  - destruct (create_poetry _ _) as [obj|e'] eqn:Hf; simpl; [|done].
    rewrite lookup_insert_eq. simpl.
    destruct (create_venv obj io) as [e|e''] eqn:Hv; simpl; [|done].
    destruct (env_is_venv e && is_verbose io);
      intros [= <- <-]; exists (fresh (dom (heap w))), obj, e; simpl;
      by rewrite lookup_insert_eq.
Qed.

Lemma configure_installer_wires command io w w' command' :
  is_InstallerCommand command = true -> installer command = None ->
  configure_installer' command io w = (w', Ok command') ->
  exists p obj,
    _poetry (self w') = Some p /\ heap w' !! p = Some obj /\
    (forall p0, _poetry (self w) = Some p0 -> p = p0 /\ w' = w) /\
    command'
    = set_installer
        {| installer_io := io;
           installer_env := env command;
           installer_package := _package obj;
           installer_locker := _locker obj;
           installer_pool := _pool obj;
           installer_config := _config obj;
           installer_use_executor :=
             config_get (_config obj) "experimental.new-installer" (PyBool false) |}
        command.
Proof.
  intros Hc Hi.
  unfold configure_installer, _configure_installer, command_poetry, poetry, deref.
  rewrite Hc, Hi. cbn [negb]. unfold_monad.
  destruct (_poetry (self w)) as [p|] eqn:Hp; simpl.
  - destruct (heap w !! p) as [obj|] eqn:Hobj; simpl; [|done].
    intros [= <- <-]. exists p, obj.
    split; [done|]. split; [done|]. split; [|done].
    by intros p0 [= ->].
  - destruct (create_poetry _ _) as [obj|e'] eqn:Hf; simpl; [|done].
    rewrite lookup_insert_eq. simpl.
    intros [= <- <-]. exists (fresh (dom (heap w))), obj. simpl.
    rewrite lookup_insert_eq.
    split; [done|]. split; [done|]. split; [|done].
    by intros p0.
Qed.

(** X11.  After a successful dispatch on a command with both
    capabilities and nothing attached, the installer is wired to the io
    of the event, to the environment attached in the same dispatch, and
    to the package, locker, pool and configuration of the very Poetry
    object the environment was created for; its executor flag is the
    configuration value of "experimental.new-installer", False by
    default. *)
Theorem dispatch_wires_installer_to_env command io w w1 command1 :
  is_EnvCommand command = true -> is_InstallerCommand command = true ->
  env command = None -> installer command = None ->
  pipeline' command io w = (w1, Ok command1) ->
  exists p obj e,
    _poetry (self w1) = Some p /\ heap w1 !! p = Some obj /\
    create_venv obj io = Ok e /\
    env command1 = Some e /\
    installer command1
    = Some {| installer_io := io;
              installer_env := Some e;
              installer_package := _package obj;
              installer_locker := _locker obj;
              installer_pool := _pool obj;
              installer_config := _config obj;
              installer_use_executor :=
                config_get (_config obj) "experimental.new-installer"
                  (PyBool false) |}.
Proof.
  intros Hce Hci He Hi Hp. rewrite pipeline_unfold in Hp.
  destruct (register_command_loggers_frame command io w) as (wa & Hreg & _).
  rewrite Hreg in Hp.
  destruct (configure_env' command io wa) as [wb [cb|e0]] eqn:Henv; [|done].
  destruct (configure_env_uses_cache _ _ _ _ _ Hce He Henv)
    as (p & obj & e & Hcache & Hobj & Hv & ->).
  destruct (configure_installer_wires (set_env e command) io wb w1 command1
              Hci Hi Hp) as (p' & obj' & Hcache' & Hobj' & Hsame & ->).
  destruct (Hsame p Hcache) as [-> ->].
  exists p, obj, e. rewrite Hobj in Hobj'. injection Hobj' as <-.
  by repeat split.
Qed.

(** X12.  The logger listener replaces handlers instead of adding to
    them: run again with the same io, on the state it produced, it
    changes nothing. *)
Theorem register_command_loggers_idempotent command io w :
  register_command_loggers command io
    (fst (register_command_loggers command io w))
  = register_command_loggers command io w.
Proof.
  unfold register_command_loggers.
  destruct (is_Command command); cbn [negb]; [|done].
  unfold bind, ret. rewrite !configure_loggers_run. cbn [fst].
  rewrite ?configure_loggers_run. unfold with_logging.
  cbn [fst logging self heap trace].
  f_equal. f_equal. apply map_eq. intros name.
  rewrite !configured_loggers_lookup.
  by destruct (decide (name ∈ base_loggers ++ loggers command)).
Qed.

Lemma configure_env_result command io w w' command' :
  configure_env' command io w = (w', Ok command') ->
  command' = command \/ (env command = None /\ exists e, command' = set_env e command).
Proof.
  unfold configure_env, command_poetry, poetry, deref.
  destruct (is_EnvCommand command); cbn [negb]; [|intros [= _ <-]; by left].
  destruct (env command); [intros [= _ <-]; by left|].
  unfold_monad. intros H. right. split; [done|].
  repeat (case_match; simpl in *; simplify_eq); eauto.
Qed.

Lemma configure_installer_result command io w w' command' :
  configure_installer' command io w = (w', Ok command') ->
  command' = command \/
  (installer command = None /\ exists i, command' = set_installer i command).
Proof.
  unfold configure_installer, _configure_installer, command_poetry, poetry, deref.
  destruct (is_InstallerCommand command); cbn [negb]; [|intros [= _ <-]; by left].
  destruct (installer command); [intros [= _ <-]; by left|].
  unfold_monad. intros H. right. split; [done|].
  repeat (case_match; simpl in *; simplify_eq); eauto.
Qed.

(** X13.  Whatever its classes, a command comes out of a successful
    dispatch with the same name, classes and logger names, and with the
    environment and the installer it already had: the listeners only
    fill what was empty. *)
Theorem dispatch_only_fills_empty_slots command io w w' command' :
  pipeline create_poetry create_venv config_get command io w
  = (w', Ok command') ->
  command_name command' = command_name command /\
  is_Command command' = is_Command command /\
  is_EnvCommand command' = is_EnvCommand command /\
  is_InstallerCommand command' = is_InstallerCommand command /\
  loggers command' = loggers command /\
  (forall e, env command = Some e -> env command' = Some e) /\
  (forall i, installer command = Some i -> installer command' = Some i).
Proof.
  intros Hp. rewrite pipeline_unfold in Hp.
  destruct (register_command_loggers_frame command io w) as (wa & Hreg & _).
  rewrite Hreg in Hp.
  destruct (configure_env' command io wa) as [wb [cb|e0]] eqn:Henv; [|done].
  apply configure_env_result in Henv.
  apply configure_installer_result in Hp.
  destruct Henv as [->|[He [e ->]]], Hp as [->|[Hi [i ->]]]; simpl in *;
    repeat split; try done; intros; congruence.
Qed.

End Attachments.

Lemma configure_env_attaches_created_env_witness :
  exists w' p,
    configure_env ToyShell.create_poetry ToyShell.create_venv
      ToyShell.install_command (ToyCleo.io_of ["poetry"; "install"])
      ToyShell.initial
    = (w', Ok (set_env ToyShell.the_env ToyShell.install_command)) /\
    trace w' = [CreatePoetry None (PyBool false); CreateVenv p].
Proof.
  destruct (configure_env ToyShell.create_poetry ToyShell.create_venv
              ToyShell.install_command (ToyCleo.io_of ["poetry"; "install"])
              ToyShell.initial) as [w' [c'|e]] eqn:Hrun;
    [|vm_compute in Hrun; discriminate].
  destruct (configure_env_attaches_created_env
              ToyShell.create_poetry ToyShell.create_venv
              ToyShell.install_command (ToyCleo.io_of ["poetry"; "install"])
              ToyShell.initial w' c' eq_refl eq_refl Hrun)
    as (p & obj & e & _ & _ & Hv & -> & _ & Ht).
  injection Hv as <-. exists w', p. split; [reflexivity | exact Ht].
Defined.

Lemma dispatch_wires_installer_to_env_witness :
  exists w1 command1 i,
    pipeline ToyShell.create_poetry ToyShell.create_venv ToyShell.config_get
      ToyShell.install_command (ToyCleo.io_of ["poetry"; "install"])
      ToyShell.initial
    = (w1, Ok command1) /\
    installer command1 = Some i /\
    installer_env i = Some ToyShell.the_env /\
    installer_use_executor i = PyBool false.
Proof.
  destruct (pipeline ToyShell.create_poetry ToyShell.create_venv
              ToyShell.config_get ToyShell.install_command
              (ToyCleo.io_of ["poetry"; "install"]) ToyShell.initial)
    as [w1 [command1|e]] eqn:Hp; [|vm_compute in Hp; discriminate].
  destruct (dispatch_wires_installer_to_env
              ToyShell.create_poetry ToyShell.create_venv ToyShell.config_get
              ToyShell.install_command (ToyCleo.io_of ["poetry"; "install"])
              ToyShell.initial w1 command1 eq_refl eq_refl eq_refl eq_refl Hp)
    as (p & obj & e & _ & _ & Hv & _ & Hi).
  injection Hv as <-. eexists w1, command1, _.
  split; [reflexivity|]. split; [exact Hi|]. split; reflexivity.
Defined.

Lemma dispatch_only_fills_empty_slots_witness :
  exists w' command',
    pipeline ToyShell.create_poetry ToyShell.create_venv ToyShell.config_get
      (set_env {| env_path := "/usr"; env_is_venv := false |}
         ToyShell.install_command)
      (ToyCleo.io_of ["poetry"; "install"]) ToyShell.initial
    = (w', Ok command') /\
    env command' = Some {| env_path := "/usr"; env_is_venv := false |} /\
    loggers command' = ["poetry.repositories.pypi_repository"].
Proof.
  destruct (pipeline ToyShell.create_poetry ToyShell.create_venv
              ToyShell.config_get
              (set_env {| env_path := "/usr"; env_is_venv := false |}
                 ToyShell.install_command)
              (ToyCleo.io_of ["poetry"; "install"]) ToyShell.initial)
    as [w' [command'|e]] eqn:Hp; [|vm_compute in Hp; discriminate].
  destruct (dispatch_only_fills_empty_slots
              ToyShell.create_poetry ToyShell.create_venv ToyShell.config_get
              _ _ _ w' command' Hp) as (_ & _ & _ & _ & Hl & He & _).
  exists w', command'. split; [reflexivity|]. split; [|exact Hl].
  by apply He.
Defined.

(** ** Plugin loading at the edges *)

Section PluginEdges.

Variable create_poetry : option IO -> PyVal -> outcome Poetry.
Variable create_venv : Poetry -> IO -> outcome Env.
Variable config_get : Config -> string -> PyVal -> PyVal.
Variable parameter_option : Input -> string -> PyVal.
Variable has_parameter_option : Input -> string -> bool.
Variable load_plugins : string -> outcome unit.
Variable activate : string -> outcome unit.
Variable get_command_name : IO -> string.
Variable execute : Command -> IO -> outcome Z.

Notation _load_plugins' :=
  (_load_plugins has_parameter_option load_plugins activate).
Notation run_and_render' :=
  (run_and_render create_poetry create_venv config_get parameter_option
     has_parameter_option load_plugins activate get_command_name execute).
Notation runs' :=
  (runs create_poetry create_venv config_get parameter_option
     has_parameter_option load_plugins activate get_command_name execute).

Lemma run_plugin_state_step io w :
  plugin_state (fst (run_and_render' io w))
  = plugin_state
      (fst (_load_plugins' io
              (with_self (assign_disable_plugins
                            (parameter_option (input io) "--no-plugins")) w))).
Proof.
  rewrite (run_plugin_state create_poetry create_venv config_get parameter_option
             has_parameter_option load_plugins activate get_command_name execute).
  apply run_plugin_step.
Qed.

(** X14.  When the first run of a process carries [--no-plugins], the
    plugin manager is never called in that process, whatever it would
    have done and whatever the later runs carry, and the loaded flag is
    set all the same. *)
Theorem no_plugins_on_first_run_disables_for_good io rest w :
  _plugins_loaded (self w) = false ->
  has_parameter_option (input io) "--no-plugins" = true ->
  plugin_state (fst (runs' (io :: rest) w))
  = (true, count_events is_LoadPlugins (trace w),
           count_events is_Activate (trace w)).
Proof.
  intros Hf Hn.
  assert (Hfirst : plugin_state (fst (run_and_render' io w))
            = (true, count_events is_LoadPlugins (trace w),
                     count_events is_Activate (trace w))).
  { rewrite run_plugin_state_step. unfold _load_plugins. unfold_monad.
    simpl. rewrite Hf. simpl. by rewrite Hn. }
  cbn [runs]. unfold bind.
  destruct (run_and_render' io w) as [w1 [code|e]] eqn:E; cbn [fst] in *;
    [|done].
  rewrite <- Hfirst. apply runs_later.
  exact (f_equal (fun x => fst (fst x)) Hfirst).
Qed.

(** X15.  When discovery or activation raises on a run that loads
    plugins, the calls made so far are on record but the loaded flag
    stays unset; the next run without [--no-plugins] then goes through
    discovery again. *)
Theorem failed_plugin_loading_is_retried io io' w e :
  _plugins_loaded (self w) = false ->
  has_parameter_option (input io) "--no-plugins" = false ->
  has_parameter_option (input io') "--no-plugins" = false ->
  load_plugins plugin_group = Raise e \/
  (load_plugins plugin_group = Ok tt /\ activate plugin_group = Raise e) ->
  let a := match load_plugins plugin_group with Ok _ => 1 | Raise _ => 0 end in
  plugin_state (fst (run_and_render' io w))
  = (false, count_events is_LoadPlugins (trace w) + 1,
            count_events is_Activate (trace w) + a) /\
  plugin_state (fst (runs' [io; io'] w))
  = (false, count_events is_LoadPlugins (trace w) + 2,
            count_events is_Activate (trace w) + (a + a)).
Proof.
  intros Hf Hn Hn' Hfail a.
  assert (Hstep : forall io0 w0,
            _plugins_loaded (self w0) = false ->
            has_parameter_option (input io0) "--no-plugins" = false ->
            plugin_state (fst (run_and_render' io0 w0))
            = (false, count_events is_LoadPlugins (trace w0) + 1,
                      count_events is_Activate (trace w0) + a)).
  { intros io0 w0 H0 H1. rewrite run_plugin_state_step.
    unfold _load_plugins. unfold_monad. simpl. rewrite H0. simpl.
    rewrite H1. simpl. subst a.
    destruct Hfail as [->|[-> ->]]; simpl; unfold plugin_state; simpl;
      rewrite ?count_events_app; unfold count_events; simpl;
      rewrite H0; f_equal; [f_equal|]; lia. }
  split; [by apply Hstep|].
  cbn [runs]. unfold bind at 1.
  pose proof (Hstep io w Hf Hn) as H1.
  destruct (run_and_render' io w) as [w1 [code|e1]] eqn:E; cbn [fst] in *.
  - unfold bind, ret.
    assert (Hf1 : _plugins_loaded (self w1) = false)
      by exact (f_equal (fun x => fst (fst x)) H1).
    pose proof (Hstep io' w1 Hf1 Hn') as H2.
    destruct (run_and_render' io' w1) as [w2 [code2|e2]]; cbn [fst] in *.
    + rewrite H2. unfold plugin_state in H1. injection H1 as _ -> ->.
      f_equal; [f_equal|]; lia.
    + rewrite H2. unfold plugin_state in H1. injection H1 as _ -> ->.
      f_equal; [f_equal|]; lia.
  - exfalso. unfold run_and_render in E.
    by destruct (_run _ _ _ _ _ _ _ _ _ io w) as [? [?|?]].
Qed.

End PluginEdges.

Lemma no_plugins_on_first_run_disables_for_good_witness :
  plugin_state
    (fst (runs ToyShell.create_poetry ToyShell.create_venv ToyShell.config_get
            ToyShell.parameter_option ToyShell.has_parameter_option
            ToyShell.failing_load_plugins ToyShell.activate
            ToyShell.get_command_name ToyShell.execute
            [ToyCleo.io_of ["poetry"; "--no-plugins"; "install"];
             ToyCleo.io_of ["poetry"; "install"]]
            ToyShell.initial))
  = (true, 0, 0).
Proof.
  exact (no_plugins_on_first_run_disables_for_good
           ToyShell.create_poetry ToyShell.create_venv ToyShell.config_get
           ToyShell.parameter_option ToyShell.has_parameter_option
           ToyShell.failing_load_plugins ToyShell.activate
           ToyShell.get_command_name ToyShell.execute
           (ToyCleo.io_of ["poetry"; "--no-plugins"; "install"])
           [ToyCleo.io_of ["poetry"; "install"]]
           ToyShell.initial eq_refl eq_refl).
Defined.

Lemma failed_plugin_loading_is_retried_witness :
  plugin_state
    (fst (runs ToyShell.create_poetry ToyShell.create_venv ToyShell.config_get
            ToyShell.parameter_option ToyShell.has_parameter_option
            ToyShell.load_plugins failing_activate
            ToyShell.get_command_name ToyShell.execute
            [ToyCleo.io_of ["poetry"; "install"];
             ToyCleo.io_of ["poetry"; "install"]]
            ToyShell.initial))
  = (false, 2, 2).
Proof.
  exact (proj2 (failed_plugin_loading_is_retried
                  ToyShell.create_poetry ToyShell.create_venv
                  ToyShell.config_get
                  ToyShell.parameter_option ToyShell.has_parameter_option
                  ToyShell.load_plugins failing_activate
                  ToyShell.get_command_name ToyShell.execute
                  (ToyCleo.io_of ["poetry"; "install"])
                  (ToyCleo.io_of ["poetry"; "install"])
                  ToyShell.initial (PyError "PluginError" "application.plugin")
                  eq_refl eq_refl eq_refl
                  (or_intror (conj eq_refl eq_refl)))).
Defined.

(** ** The global definition *)

Lemma option_defaults_add d o :
  option_defaults (add_option d o)
  = dict_set (opt_name o) (opt_default o) (option_defaults d).
Proof. unfold option_defaults, add_option. by rewrite fold_left_app. Qed.

Lemma dict_get_None_keys {V} k (d : dict V) :
  dict_get k d = None <-> k ∉ dict_keys d.
Proof.
  unfold dict_keys. induction d as [|[k' v] d IH]; simpl.
  - split; [intros _; apply not_elem_of_nil | done].
  - destruct (String.eqb_spec k k') as [->|Hne].
    + split; [done|]. intros H. exfalso. apply H. left.
    + rewrite IH, not_elem_of_cons. tauto.
Qed.

Lemma dict_update_get_absent {V} k (d d2 : dict V) :
  dict_get k d2 = None -> dict_get k (dict_update d d2) = dict_get k d.
Proof.
  unfold dict_update. revert d.
  induction d2 as [|[k' v] d2 IH]; intros d Hk; [done|].
  cbn [fold_left fst snd dict_get] in *.
  destruct (String.eqb_spec k k') as [->|Hne]; [done|].
  rewrite IH by done. by apply dict_get_set_ne.
Qed.

(** X16.  For a base definition without an option named [no-plugins],
    the shell's definition has that option and every option of the base
    definition is found in it unchanged; [no-plugins] is a flag without
    shortcut whose default is False, so that an input that does not
    mention it is bound to a falsy value and the pass-through rewrite
    declares nothing for it. *)
Theorem default_definition_adds_no_plugins (base : InputDefinition) :
  has_option base "no-plugins" = false ->
  has_option (_default_definition base) "no-plugins" = true /\
  (forall name, has_option base name = true ->
                definition_option (_default_definition base) name
                = definition_option base name) /\
  definition_option (_default_definition base) "no-plugins"
  = Ok {| opt_name := "no-plugins"; opt_shortcut := None;
          opt_default := PyBool false |} /\
  (forall a,
     _definition a = _default_definition base ->
     dict_get "no-plugins" (_options a) = None ->
     dict_get "no-plugins" (input_options a) = Some (PyBool false) /\
     "no-plugins" ∉ supplied (input_options a)).
Proof.
  unfold _default_definition, add_option, has_option, definition_option.
  intros Hn. split; [|split].
  - rewrite existsb_app. simpl. apply orb_true_r.
  - clear Hn. intros name Hn. induction base as [|o d IH]; simpl in *; [done|].
    destruct (String.eqb name (opt_name o)); [done|]. by apply IH.
  - assert (Hfind : find (fun o => String.eqb "no-plugins" (opt_name o))
                      (base ++ [{| opt_name := "no-plugins"; opt_shortcut := None;
                                   opt_default := PyBool false |}])
                    = Some {| opt_name := "no-plugins"; opt_shortcut := None;
                              opt_default := PyBool false |}).
    { induction base as [|o d IH]; cbn [find existsb app] in *.
      - by rewrite String.eqb_refl.
      - destruct (String.eqb "no-plugins" (opt_name o));
          cbn [orb] in Hn; [done | by apply IH]. }
    split; [by rewrite Hfind|].
    intros a Ha Hopt.
    assert (Hget : dict_get "no-plugins" (input_options a) = Some (PyBool false)).
    { unfold input_options. rewrite Ha.
      change (base ++ [{| opt_name := "no-plugins"; opt_shortcut := None;
                          opt_default := PyBool false |}])
        with (add_option base {| opt_name := "no-plugins"; opt_shortcut := None;
                                 opt_default := PyBool false |}).
      rewrite option_defaults_add, dict_update_get_absent by done.
      apply dict_get_set_eq. }
    split; [exact Hget|].
    intros Hin. apply supplied_elem in Hin as (v & Hv & Ht).
    apply dict_get_elem in Hv; [|apply input_options_NoDup].
    rewrite Hget in Hv. by injection Hv as <-.
Qed.

Lemma default_definition_adds_no_plugins_witness :
  definition_option ToyCleo.global_definition "no-plugins"
  = Ok {| opt_name := "no-plugins"; opt_shortcut := None;
          opt_default := PyBool false |} /\
  definition_option ToyCleo.global_definition "verbose"
  = Ok {| opt_name := "verbose"; opt_shortcut := Some "-v|-vv|-vvv";
          opt_default := PyBool false |}.
Proof.
  destruct (default_definition_adds_no_plugins
              [ {| opt_name := "help"; opt_shortcut := Some "-h";
                   opt_default := PyBool false |};
                {| opt_name := "quiet"; opt_shortcut := Some "-q";
                   opt_default := PyBool false |};
                {| opt_name := "verbose"; opt_shortcut := Some "-v|-vv|-vvv";
                   opt_default := PyBool false |};
                {| opt_name := "ansi"; opt_shortcut := None;
                   opt_default := PyBool false |} ])
    as (_ & Hkeep & Hnew & _); [reflexivity|].
  split.
  - exact Hnew.
  - unfold ToyCleo.global_definition. rewrite (Hkeep "verbose" eq_refl).
    reflexivity.
Defined.

(** ** [create_io] *)

Lemma dict_get_set {V} (k k' : string) (v : V) (d : dict V) :
  dict_get k (dict_set k' v d)
  = if String.eqb k k' then Some v else dict_get k d.
Proof.
  destruct (String.eqb_spec k k') as [->|Hne].
  - apply dict_get_set_eq.
  - apply dict_get_set_ne. congruence.
Qed.

Section CreateIOFacts.

Variable PY37 : bool.
Variable base_create_io :
  option Input -> option Output -> option Output -> ConsoleIO.

Notation create_io' := (create_io PY37 base_create_io).

(** X17.  [create_io] does not raise and records the io on the
    application.  Both outputs of the io it returns carry one and the
    same formatter: that of the base class's output, in which the ten
    CLI styles are set to their fixed values, whatever they were before,
    and every other style is kept; the formatter the error output had is
    dropped. *)
Theorem create_io_installs_styles input_ output_ error_output_ w :
  exists io,
    create_io' input_ output_ error_output_ w
    = (with_self (assign_io (Some (io_core io))) w, Ok io) /\
    io_core io = io_core (base_create_io input_ output_ error_output_) /\
    formatter (error_output io) = formatter (output io) /\
    (forall name,
        dict_get name (formatter (output io))
        = match dict_get name cli_styles with
          | Some style => Some style
          | None =>
              dict_get name
                (formatter (output (base_create_io input_ output_ error_output_)))
          end) /\
    (NoDup (dict_keys
              (formatter (output (base_create_io input_ output_ error_output_)))) ->
     NoDup (dict_keys (formatter (output io)))).
Proof.
  unfold create_io. eexists. split; [reflexivity|]. cbn [io_core output error_output].
  split; [reflexivity|]. split; [reflexivity|].
  assert (Hf : forall o : Output,
            formatter (if needs_utf8_wrapper PY37 o
                       then {| _stream := TextIOWrapper_utf8 <$> _stream o;
                               formatter := formatter o |}
                       else o) = formatter o).
  { intros o. by destruct (needs_utf8_wrapper PY37 o). }
  split.
  - intros name. unfold set_formatter, set_style. cbn [formatter].
    rewrite !dict_get_set, Hf. unfold cli_styles. cbn [dict_get].
    repeat match goal with
           | |- context [String.eqb name ?k] =>
               destruct (String.eqb_spec name k) as [->|?]; [reflexivity|]
           end.
    reflexivity.
  - intros Hnd. unfold set_formatter, set_style. cbn [formatter].
    repeat apply dict_set_NoDup. by rewrite Hf.
Qed.

(** X18.  [create_io] never touches the stream of the error output.  The
    stream of the output is left alone on Python 3.7 and later, and
    also when the output has no stream or the stream no buffer;
    otherwise it ends up encoded in utf-8 over the same buffer. *)
Theorem create_io_stream_encoding input_ output_ error_output_ w :
  exists io,
    snd (create_io PY37 base_create_io input_ output_ error_output_ w)
    = Ok io /\
    _stream (error_output io)
    = _stream (error_output (base_create_io input_ output_ error_output_)) /\
    match _stream (output (base_create_io input_ output_ error_output_)) with
    | None => _stream (output io) = None
    | Some s =>
        match buffer s with
        | None => _stream (output io) = Some s
        | Some b =>
            _stream (output io)
            = Some (if PY37 then s
                    else {| encoding := "utf-8"; buffer := Some b |})
        end
    end.
Proof.
  unfold create_io. eexists. split; [reflexivity|].
  cbn [output error_output]. unfold set_formatter. cbn [_stream].
  split; [reflexivity|]. unfold needs_utf8_wrapper.
  destruct (_stream (output (base_create_io input_ output_ error_output_)))
    as [s|] eqn:Hs.
  - destruct (buffer s) as [b|] eqn:Hb.
    + destruct PY37; cbn [negb andb]; [by rewrite ?Hs|].
      destruct (String.eqb_spec (encoding s) "utf-8") as [He|He]; cbn [negb].
      * rewrite ?Hs. f_equal. destruct s as [enc buf]. simpl in *. by subst.
      * cbn [_stream]. rewrite ?Hs. simpl. unfold TextIOWrapper_utf8.
        by rewrite Hb.
    + rewrite andb_false_r. by rewrite ?Hs.
  - rewrite andb_false_r. by rewrite ?Hs.
Qed.

End CreateIOFacts.

(** X19.  The io recorded by [create_io] is the one the factory is
    called with when the project context is first read afterwards. *)
Theorem create_io_then_poetry_passes_io
    (PY37 : bool)
    (base_create_io : option Input -> option Output -> option Output -> ConsoleIO)
    (create_poetry : option IO -> PyVal -> outcome Poetry)
    input_ output_ error_output_ w :
  _poetry (self w) = None ->
  trace (fst (poetry create_poetry
                (fst (create_io PY37 base_create_io input_ output_
                        error_output_ w))))
  = trace w
    ++ [CreatePoetry
          (Some (io_core (base_create_io input_ output_ error_output_)))
          (_disable_plugins (self w))].
Proof.
  intros Hn. unfold create_io. cbn [fst io_core].
  unfold poetry. unfold_monad. cbn [self _poetry assign_io]. rewrite Hn.
  cbn [_io _disable_plugins trace].
  by destruct (create_poetry _ _).
Qed.

Lemma create_io_installs_styles_witness :
  exists io,
    snd (create_io false plain_create_io None None None ToyShell.initial) = Ok io /\
    dict_get "error" (formatter (error_output io))
    = Some {| style_foreground := "red"; style_options := [] |} /\
    dict_get "c2_dark" (formatter (error_output io))
    = Some {| style_foreground := "default"; style_options := ["bold"; "dark"] |} /\
    NoDup (dict_keys (formatter (output io))).
Proof.
  destruct (create_io_installs_styles false plain_create_io None None None
              ToyShell.initial) as (io & Hrun & _ & Hsame & Hget & Hnd).
  exists io. rewrite Hrun. split; [reflexivity|]. rewrite Hsame.
  split; [exact (Hget "error")|]. split; [exact (Hget "c2_dark")|].
  apply Hnd. simpl. apply NoDup_singleton.
Defined.

Lemma create_io_then_poetry_passes_io_witness :
  trace (fst (poetry ToyShell.create_poetry
                (fst (create_io false plain_create_io
                        (Some (Argv (ArgvInput_new ["poetry"; "install"])))
                        None None ToyShell.initial))))
  = [CreatePoetry (Some (ToyCleo.io_of ["poetry"; "install"])) (PyBool false)].
Proof.
  exact (create_io_then_poetry_passes_io false plain_create_io
           ToyShell.create_poetry
           (Some (Argv (ArgvInput_new ["poetry"; "install"]))) None None
           ToyShell.initial eq_refl).
Defined.

(** ** Getters and setters of the Poetry object *)

(** X20.  On an existing Poetry object each getter reads back what its
    setter stored and is not affected by the other setters; setters of
    different fields commute, so the order of a fluent chain does not
    matter, and of two calls of the same setter the later one wins. *)
Theorem poetry_setters_round_trip (h : gmap ref Poetry) (self : ref)
    (obj : Poetry) (locker locker2 : BaseLocker) (pool : Pool) (config : Config)
    (plugin_manager : PluginManager) :
  h !! self = Some obj ->
  (Poetry_locker self (fst (set_locker self locker h)) = Some locker /\
   Poetry_pool self (fst (set_pool self pool h)) = Some pool /\
   Poetry_config self (fst (set_config self config h)) = Some config) /\
  (Poetry_locker self (fst (set_pool self pool h)) = Some (_locker obj) /\
   Poetry_locker self (fst (set_config self config h)) = Some (_locker obj) /\
   Poetry_locker self (fst (set_plugin_manager self plugin_manager h))
   = Some (_locker obj) /\
   Poetry_pool self (fst (set_locker self locker h)) = Some (_pool obj) /\
   Poetry_pool self (fst (set_config self config h)) = Some (_pool obj) /\
   Poetry_pool self (fst (set_plugin_manager self plugin_manager h))
   = Some (_pool obj) /\
   Poetry_config self (fst (set_locker self locker h)) = Some (_config obj) /\
   Poetry_config self (fst (set_pool self pool h)) = Some (_config obj) /\
   Poetry_config self (fst (set_plugin_manager self plugin_manager h))
   = Some (_config obj)) /\
  (fst (set_pool self pool (fst (set_locker self locker h)))
   = fst (set_locker self locker (fst (set_pool self pool h))) /\
   fst (set_config self config (fst (set_locker self locker h)))
   = fst (set_locker self locker (fst (set_config self config h))) /\
   fst (set_config self config (fst (set_pool self pool h)))
   = fst (set_pool self pool (fst (set_config self config h))) /\
   fst (set_plugin_manager self plugin_manager (fst (set_locker self locker h)))
   = fst (set_locker self locker
            (fst (set_plugin_manager self plugin_manager h)))) /\
  fst (set_locker self locker2 (fst (set_locker self locker h)))
  = fst (set_locker self locker2 h).
Proof.
  intros Hobj.
  unfold Poetry_locker, Poetry_pool, Poetry_config,
    set_locker, set_pool, set_config, set_plugin_manager.
  split; [|split; [|split]].
  - rewrite !assigning_lookup, !decide_True, Hobj by done. by repeat split.
  - rewrite !assigning_lookup, !decide_True, Hobj by done. by repeat split.
  - repeat split; apply map_eq; intros p; rewrite !assigning_lookup;
      destruct (decide (p = self)) as [->|?]; try done;
      rewrite Hobj; reflexivity.
  - apply map_eq. intros p. rewrite !assigning_lookup.
    destruct (decide (p = self)) as [->|?]; [|done].
    rewrite Hobj. reflexivity.
Qed.

Lemma poetry_setters_round_trip_witness :
  Poetry_locker 0 (fst (set_locker 0 7 {[ 0 := ToyShell.the_poetry ]})) = Some 7 /\
  Poetry_pool 0 (fst (set_locker 0 7 {[ 0 := ToyShell.the_poetry ]})) = Some 4 /\
  fst (set_pool 0 9 (fst (set_locker 0 7 {[ 0 := ToyShell.the_poetry ]})))
  = fst (set_locker 0 7 (fst (set_pool 0 9 {[ 0 := ToyShell.the_poetry ]}))).
Proof.
  destruct (poetry_setters_round_trip {[ 0 := ToyShell.the_poetry ]} 0
              ToyShell.the_poetry 7 7 9 3 "application.plugin"
              (lookup_singleton_eq 0 ToyShell.the_poetry))
    as ((Hl & _) & (_ & _ & _ & Hp & _) & (Hcomm & _) & _).
  split; [exact Hl|]. split; [exact Hp | exact Hcomm].
Defined.
